(** * lighthouse-keeper: the option builder, the validators, the audit
      classification and the scan orchestrator of [dist/bundle.js]

    The development has two layers.  Module [JS] holds the fragment of the
    JavaScript semantics the bundle relies on: IEEE 754 binary64 numbers,
    primitive values and their coercions, string splitting, the one regular
    expression of the bundle, plain objects with their key order and their
    prototype, and thrown errors.  Module [Keeper] holds the functions of
    [dist/bundle.js], one definition per source function.  The theorems
    follow the definitions. *)

From Stdlib Require Import ZArith List String Ascii Bool Lia SpecFloat.
Import ListNotations.

Local Open Scope string_scope.
Local Open Scope Z_scope.

(* ================================================================== *)
(** * The JavaScript fragment *)
(* ================================================================== *)

Module JS.

(** ** Numbers

    A JavaScript number is an IEEE 754 binary64 value.  [spec_float] is the
    Standard Library's specification of such values (without NaN payloads,
    which JavaScript cannot observe either). *)

Definition number := spec_float.

Definition prec : Z := 53.
Definition emax : Z := 1024.

Definition NaN : number := S754_nan.
Definition Infinity : number := S754_infinity false.
Definition pos_zero : number := S754_zero false.

(** The number an integer literal denotes (round to nearest, ties to even). *)
Definition of_Z (z : Z) : number := binary_normalize prec emax z 0 false.

(** The number nearest to the fraction [p / q]: the quotient is computed
    with enough digits and rounded once, from its remainder. *)
Definition of_ratio (neg : bool) (p q : positive) : number :=
  let '(mz, ez, lz) := SFdiv_core_binary prec emax (Zpos p) 0 (Zpos q) 0 in
  binary_round_aux prec emax neg mz ez lz.

(** [x * y] *)
Definition mul (x y : number) : number := SFmul prec emax x y.

(** [x >= y]: false as soon as one side is NaN. *)
Definition ge (x y : number) : bool :=
  match SFcompare x y with
  | Some (Gt | Eq) => true
  | _ => false
  end.

(** [x < y]: false as soon as one side is NaN. *)
Definition lt (x y : number) : bool := SFltb x y.

Definition is_nan (x : number) : bool :=
  match x with S754_nan => true | _ => false end.

(** ** Strings

    A string is a sequence of code units; the model covers the code units
    U+0000 to U+00FF. *)

Definition LF : ascii := ascii_of_nat 10.
Definition CR : ascii := ascii_of_nat 13.

(** LineTerminator, within the modelled code units. *)
Definition is_line_terminator (c : ascii) : bool :=
  Ascii.eqb c LF || Ascii.eqb c CR.

(** StrWhiteSpaceChar: TAB, VT, FF, SP, NBSP and the line terminators. *)
Definition is_white_space (c : ascii) : bool :=
  let n := Z.of_nat (nat_of_ascii c) in
  (n =? 9) || (n =? 11) || (n =? 12) || (n =? 32) || (n =? 160)
  || is_line_terminator c.

Fixpoint mem_char (c : ascii) (s : string) : bool :=
  match s with
  | EmptyString => false
  | String c' s' => Ascii.eqb c c' || mem_char c s'
  end.

Fixpoint take (n : nat) (s : string) : string :=
  match n, s with
  | S n', String c s' => String c (take n' s')
  | _, _ => EmptyString
  end.

Fixpoint drop (n : nat) (s : string) : string :=
  match n, s with
  | S n', String _ s' => drop n' s'
  | _, _ => s
  end.

Fixpoint trim_left (s : string) : string :=
  match s with
  | String c s' => if is_white_space c then trim_left s' else s
  | EmptyString => EmptyString
  end.

(** Length of [s] once its trailing white space is removed. *)
Fixpoint trimmed_length (s : string) : nat :=
  match s with
  | EmptyString => O
  | String c s' =>
      match trimmed_length s' with
      | O => if is_white_space c then O else 1%nat
      | S n => S (S n)
      end
  end.

(** [s.trim()] *)
Definition trim (s : string) : string :=
  let t := trim_left s in take (trimmed_length t) t.

(** [s.split(sep)] for a separator of one code unit. *)
Fixpoint split (sep : ascii) (s : string) : list string :=
  match s with
  | EmptyString => [EmptyString]
  | String c s' =>
      if Ascii.eqb c sep then EmptyString :: split sep s'
      else match split sep s' with
           | t :: ts => String c t :: ts
           | [] => [String c EmptyString]
           end
  end.

(** ** StringToNumber (the StringNumericLiteral grammar) *)

Definition digit_of (base : Z) (c : ascii) : option Z :=
  let n := Z.of_nat (nat_of_ascii c) in
  let d :=
    if (48 <=? n) && (n <=? 57) then Some (n - 48)
    else if (97 <=? n) && (n <=? 102) then Some (n - 87)
    else if (65 <=? n) && (n <=? 70) then Some (n - 55)
    else None in
  match d with
  | Some v => if v <? base then Some v else None
  | None => None
  end.

(** Reads the longest run of digits of [s] in [base], continuing the value
    [acc]; returns the value, the number of digits read and the rest. *)
Fixpoint read_digits (base : Z) (s : string) (acc : Z) (count : nat)
  : Z * nat * string :=
  match s with
  | String c s' =>
      match digit_of base c with
      | Some d => read_digits base s' (acc * base + d) (S count)
      | None => (acc, count, s)
      end
  | EmptyString => (acc, count, s)
  end.

(** ExponentPart, optional: the exponent and the rest, or [None] when an
    exponent indicator is not followed by a SignedInteger. *)
Definition read_exponent (s : string) : option (Z * string) :=
  match s with
  | String c s' =>
      if Ascii.eqb c "e" || Ascii.eqb c "E" then
        let '(neg, s'') :=
          match s' with
          | String "+" t => (false, t)
          | String "-" t => (true, t)
          | _ => (false, s')
          end in
        let '(v, count, rest) := read_digits 10 s'' 0 O in
        match count with
        | O => None
        | S _ => Some (if neg then - v else v, rest)
        end
      else Some (0, s)
  | EmptyString => Some (0, s)
  end.

(** The number nearest to [m * 10 ^ e], for [m >= 0]. *)
Definition of_decimal (neg : bool) (m e : Z) : number :=
  match m with
  | Zpos p =>
      if 0 <=? e then binary_normalize prec emax (if neg then - (m * 10 ^ e) else m * 10 ^ e) 0 neg
      else of_ratio neg p (Z.to_pos (10 ^ (- e)))
  | _ => S754_zero neg
  end.

(** StrUnsignedDecimalLiteral *)
Definition unsigned_decimal (neg : bool) (s : string) : number :=
  if String.eqb s "Infinity" then S754_infinity neg
  else
    let '(i, ni, r1) := read_digits 10 s 0 O in
    let '(m, nf, r2, has_digits) :=
      match r1 with
      | String "." t =>
          let '(m, nf, r2) := read_digits 10 t i O in
          (m, nf, r2, negb (Nat.eqb (ni + nf) O))
      | _ => (i, O, r1, negb (Nat.eqb ni O))
      end in
    if has_digits then
      match read_exponent r2 with
      | Some (e, EmptyString) => of_decimal neg m (e - Z.of_nat nf)
      | _ => NaN
      end
    else NaN.

(** BinaryIntegerLiteral, OctalIntegerLiteral, HexIntegerLiteral: the digits
    after the two-character prefix. *)
Definition radix_literal (base : Z) (digits : string) : number :=
  match read_digits base digits 0 O with
  | (v, S _, EmptyString) => of_Z v
  | _ => NaN
  end.

Definition radix_of_prefix (c : ascii) : option Z :=
  if Ascii.eqb c "x" || Ascii.eqb c "X" then Some 16
  else if Ascii.eqb c "o" || Ascii.eqb c "O" then Some 8
  else if Ascii.eqb c "b" || Ascii.eqb c "B" then Some 2
  else None.

Definition StringToNumber (s : string) : number :=
  match trim s with
  | EmptyString => pos_zero
  | String "+" t => unsigned_decimal false t
  | String "-" t => unsigned_decimal true t
  | String "0" (String c t) as u =>
      match radix_of_prefix c with
      | Some base => radix_literal base t
      | None => unsigned_decimal false u
      end
  | u => unsigned_decimal false u
  end.

(** ** Values

    The primitive values the bundle handles, and [VBuiltin name] for a
    member of [Object.prototype] reached through the prototype chain (a
    function, or the prototype itself for [__proto__]). *)

Inductive value :=
| VUndefined
| VNull
| VBool (b : bool)
| VNumber (x : number)
| VString (s : string)
| VBuiltin (name : string).

(** ToBoolean *)
Definition truthy_number (x : number) : bool :=
  match x with
  | S754_zero _ | S754_nan => false
  | _ => true
  end.

Definition truthy (v : value) : bool :=
  match v with
  | VUndefined | VNull => false
  | VBool b => b
  | VNumber x => truthy_number x
  | VString s => negb (String.eqb s "")
  | VBuiltin _ => true
  end.

(** ToNumber ([Number(v)], and the operands of [*] and [>=] once they are
    not both strings).  A built-in converts to a string that is no numeric
    literal, hence to NaN. *)
Definition ToNumber (v : value) : number :=
  match v with
  | VUndefined => NaN
  | VNull => pos_zero
  | VBool true => of_Z 1
  | VBool false => pos_zero
  | VNumber x => x
  | VString s => StringToNumber s
  | VBuiltin _ => NaN
  end.

(** ** The regular expression [/(.+):(.+)/]

    [.] matches any code unit but a line terminator; both groups are greedy.
    A match is searched from the leftmost start; at a start, group 1 first
    takes the longest run of [.] and gives code units back one at a time
    until [:] and a non-empty group 2 follow. *)

Definition dot (c : ascii) : bool := negb (is_line_terminator c).

(** Length of the longest prefix of [s] that [.+] (or [.*]) can take. *)
Fixpoint dot_run (s : string) : nat :=
  match s with
  | String c s' => if dot c then S (dot_run s') else O
  | EmptyString => O
  end.

(** [:(.+)] at the head of [s]: the text of group 2. *)
Definition colon_group (s : string) : option string :=
  match s with
  | String ":" (String c t) =>
      if dot c then Some (String c (take (dot_run t) t)) else None
  | _ => None
  end.

(** Group 1 of [n] code units, then of [n - 1], ... down to one. *)
Fixpoint backtrack (n : nat) (s : string) : option (string * string) :=
  match n with
  | O => None
  | S n' =>
      match colon_group (drop n s) with
      | Some g2 => Some (take n s, g2)
      | None => backtrack n' s
      end
  end.

Definition match_here (s : string) : option (string * string) :=
  backtrack (dot_run s) s.

(** [s.match(/(.+):(.+)/)]: [None] is JavaScript's [null], [Some (g1, g2)]
    stands for the match array, whose entries 1 and 2 are the groups. *)
Fixpoint match_pair (s : string) : option (string * string) :=
  match match_here s with
  | Some r => Some r
  | None =>
      match s with
      | String _ s' => match_pair s'
      | EmptyString => None
      end
  end.

(** ** Thrown errors *)

Inductive error :=
| TypeError                 (* raised by the engine: a property read on
                               [null] or [undefined], a call of a
                               non-function *)
| Error (message : string)  (* [throw new Error(message)] *)
| External (what : string). (* raised by a collaborator outside the
                               bundle *)

Inductive result (A : Type) :=
| Ok (a : A)
| Throw (e : error).

Arguments Ok {A} a.
Arguments Throw {A} e.

Definition bind {A B} (r : result A) (k : A -> result B) : result B :=
  match r with
  | Ok a => k a
  | Throw e => Throw e
  end.

Notation "x <- r ;; k" := (bind r (fun x => k))
  (at level 61, r at next level, right associativity).
Notation "r ;;; k" := (bind r (fun _ => k))
  (at level 61, right associativity).

(** [l.forEach(f)] for a callback that may throw. *)
Fixpoint forEach {A} (f : A -> result unit) (l : list A) : result unit :=
  match l with
  | [] => Ok tt
  | x :: l' => f x ;;; forEach f l'
  end.

(** [l.forEach(f)] for a callback that updates the variables [S] of the
    enclosing function and may throw. *)
Fixpoint forEach_with {A S} (f : S -> A -> result S) (l : list A) (s : S)
  : result S :=
  match l with
  | [] => Ok s
  | x :: l' => s' <- f s x ;; forEach_with f l' s'
  end.

(** [l.filter(f)] for a callback that may throw. *)
Fixpoint filter_with {A} (f : A -> result bool) (l : list A)
  : result (list A) :=
  match l with
  | [] => Ok []
  | x :: l' =>
      keep <- f x ;;
      rest <- filter_with f l' ;;
      Ok (if keep then x :: rest else rest)
  end.

(** [l.includes(x)] on an array of strings. *)
Definition includes (l : list string) (x : string) : bool :=
  existsb (String.eqb x) l.

(** ** Plain objects

    An object created by a literal, by [JSON.parse] or by the audit engine:
    its own enumerable properties in creation order, and [Object.prototype]
    as its prototype. *)

Definition obj (V : Type) := list (string * V).

Fixpoint get_own {V} (k : string) (o : obj V) : option V :=
  match o with
  | [] => None
  | (k', v) :: o' => if String.eqb k k' then Some v else get_own k o'
  end.

(** CreateDataProperty: the value of an existing key is replaced in place, a
    new key goes last. *)
Fixpoint define_own {V} (k : string) (v : V) (o : obj V) : obj V :=
  match o with
  | [] => [(k, v)]
  | (k', v') :: o' =>
      if String.eqb k k' then (k, v) :: o' else (k', v') :: define_own k v o'
  end.

(** The property names of [Object.prototype]. *)
Definition Object_prototype : list string :=
  [ "constructor"; "__defineGetter__"; "__defineSetter__"; "hasOwnProperty";
    "__lookupGetter__"; "__lookupSetter__"; "isPrototypeOf";
    "propertyIsEnumerable"; "toString"; "valueOf"; "__proto__";
    "toLocaleString" ].

(** The outcome of the property read [o[k]]. *)
Inductive property (V : Type) :=
| Own (v : V)                 (* an own property *)
| Inherited (name : string)   (* found on [Object.prototype] *)
| Absent.                     (* [undefined] *)

Arguments Own {V} v.
Arguments Inherited {V} name.
Arguments Absent {V}.

(** [o[k]] *)
Definition get {V} (o : obj V) (k : string) : property V :=
  match get_own k o with
  | Some v => Own v
  | None => if includes Object_prototype k then Inherited k else Absent
  end.

(** [o[k] = v] for a primitive [v], on an object that has no own
    [__proto__] property: the key [__proto__] reaches the setter of
    [Object.prototype], which ignores a primitive. *)
Definition set {V} (k : string) (v : V) (o : obj V) : obj V :=
  if String.eqb k "__proto__" then o else define_own k v o.

(** An array index: the canonical decimal form of an integer below
    [2^32 - 1]. *)
Definition array_index (k : string) : option Z :=
  match k with
  | EmptyString => None
  | String c rest =>
      match read_digits 10 k 0 O with
      | (v, _, EmptyString) =>
          if (negb (Ascii.eqb c "0") || String.eqb rest "") && (v <? 2 ^ 32 - 1)
          then Some v else None
      | _ => None
      end
  end.

Fixpoint insert_index (k : string) (i : Z) (l : list (string * Z))
  : list (string * Z) :=
  match l with
  | [] => [(k, i)]
  | (k', i') :: l' =>
      if i <=? i' then (k, i) :: l else (k', i') :: insert_index k i l'
  end.

(** The array-index keys among [ks], in ascending numeric order. *)
Fixpoint index_keys (ks : list string) : list (string * Z) :=
  match ks with
  | [] => []
  | k :: ks' =>
      match array_index k with
      | Some i => insert_index k i (index_keys ks')
      | None => index_keys ks'
      end
  end.

Definition is_index (k : string) : bool :=
  match array_index k with Some _ => true | None => false end.

(** [Object.keys(o)]: array indices in ascending order, then the other keys
    in creation order. *)
Definition Object_keys {V} (o : obj V) : list string :=
  let ks := map fst o in
  map fst (index_keys ks) ++ filter (fun k => negb (is_index k)) ks.

End JS.

(* ================================================================== *)
(** * The bundle *)
(* ================================================================== *)

Module Keeper.
Import JS.

(** ** Data model *)

(** What [yargs] hands over: the command-line flags the bundle reads, each
    [VUndefined] when the flag was not given. *)
Record Argv := {
  argv_config : value;
  argv_url : value;
  argv_audits : value;
  argv_scores : value;
  argv_showaudits : value
}.

(** The options object.  A field is [None] when the object has no such key
    (the key then reads as [undefined]). *)
Record Options := {
  urls : option (list value);
  onlyAudits : option (list string);
  scores : option (obj number);
  showAudits : option bool;
  extendedInfo : option bool;
  allAudits : option bool
}.

Record AuditRef := { ref_id : string }.

Record Category := {
  cat_title : string;
  cat_score : value;
  auditRefs : list AuditRef
}.

Record Audit := {
  audit_id : value;
  title : value;
  description : value;
  score : value;
  scoreDisplayMode : value
}.

(** The report of the audit engine ([lhr]). *)
Record Report := {
  categories : obj Category;
  audits : obj Audit
}.

(** Assignments [options.key = v]. *)
Definition set_urls (v : list value) (o : Options) : Options :=
  {| urls := Some v; onlyAudits := onlyAudits o; scores := scores o;
     showAudits := showAudits o; extendedInfo := extendedInfo o;
     allAudits := allAudits o |}.

Definition set_onlyAudits (v : list string) (o : Options) : Options :=
  {| urls := urls o; onlyAudits := Some v; scores := scores o;
     showAudits := showAudits o; extendedInfo := extendedInfo o;
     allAudits := allAudits o |}.

Definition set_scores (v : obj number) (o : Options) : Options :=
  {| urls := urls o; onlyAudits := onlyAudits o; scores := Some v;
     showAudits := showAudits o; extendedInfo := extendedInfo o;
     allAudits := allAudits o |}.

Definition set_showAudits (v : bool) (o : Options) : Options :=
  {| urls := urls o; onlyAudits := onlyAudits o; scores := scores o;
     showAudits := Some v; extendedInfo := extendedInfo o;
     allAudits := allAudits o |}.

Definition set_extendedInfo (v : bool) (o : Options) : Options :=
  {| urls := urls o; onlyAudits := onlyAudits o; scores := scores o;
     showAudits := showAudits o; extendedInfo := Some v;
     allAudits := allAudits o |}.

Definition set_allAudits (v : bool) (o : Options) : Options :=
  {| urls := urls o; onlyAudits := onlyAudits o; scores := scores o;
     showAudits := showAudits o; extendedInfo := extendedInfo o;
     allAudits := Some v |}.

(** The object [{}]. *)
Definition no_options : Options :=
  {| urls := None; onlyAudits := None; scores := None; showAudits := None;
     extendedInfo := None; allAudits := None |}.

Definition present {A} (f : option A) : bool :=
  match f with Some _ => true | None => false end.

(** [Object.keys(options)] *)
Definition option_keys (o : Options) : list string :=
  (if present (urls o) then ["urls"] else []) ++
  (if present (onlyAudits o) then ["onlyAudits"] else []) ++
  (if present (scores o) then ["scores"] else []) ++
  (if present (showAudits o) then ["showAudits"] else []) ++
  (if present (extendedInfo o) then ["extendedInfo"] else []) ++
  (if present (allAudits o) then ["allAudits"] else []).

(** ToBoolean of a boolean field that may be missing. *)
Definition flag (f : option bool) : bool :=
  match f with Some b => b | None => false end.

(** ** Options builder *)

Section OptionsBuilder.

(** [JSON.parse(fs.readFileSync(configFile, 'utf8'))] *)
Variable readConfig : value -> result Options.

(** The callback of [scores.split(',').forEach] (lines 25-30);
    [scores] is the object [options.scores]. *)
Definition add_score (scores : obj number) (score : string)
  : result (obj number) :=
  match match_pair score with
  | None => Throw TypeError
  | Some (categoryId, categoryMinScore) =>
      Ok (set categoryId (mul (StringToNumber categoryMinScore) (of_Z 1)) scores)
  end.

Definition getConfig (argv : Argv) : result Options :=
  let configFile := argv_config argv in
  options <-
    (if truthy configFile then readConfig configFile
     else
       let options := set_urls [argv_url argv] no_options in
       options <-
         (let audits := argv_audits argv in
          if truthy audits then
            match audits with
            | VString s => Ok (set_onlyAudits (split "," s) options)
            | _ => Throw TypeError
            end
          else Ok options) ;;
       let scores := argv_scores argv in
       if truthy scores then
         match scores with
         | VString s =>
             parsed <- forEach_with add_score (split "," s) [] ;;
             Ok (set_scores parsed options)
         | _ => Throw TypeError
         end
       else Ok options) ;;
  Ok (if truthy (argv_showaudits argv) then set_showAudits true options
      else options).

(** The entries of the object [defaults], each as the assignment it
    stands for. *)
Definition defaults : list (string * (Options -> Options)) :=
  [ ("urls", set_urls []);
    ("extendedInfo", set_extendedInfo false);
    ("allAudits", set_allAudits false);
    ("onlyAudits", set_onlyAudits []) ].

Definition prepareOptions (argv : Argv) : result Options :=
  opts <- getConfig argv ;;
  let preparedOptions := opts in
  let keys := option_keys preparedOptions in
  Ok (fold_left
        (fun preparedOptions entry =>
           let key := fst entry in
           let assign := snd entry in
           if negb (includes keys key) then assign preparedOptions
           else preparedOptions)
        defaults preparedOptions).

End OptionsBuilder.

(** ** Audit filtering and validators *)

Definition filterAudits (category : Category) (options : Options)
  : result (list AuditRef) :=
  filter_with
    (fun audit =>
       if negb (flag (allAudits options)) then
         match onlyAudits options with
         | None => Throw TypeError
         | Some only =>
             if (0 <? List.length only)%nat then
               if includes only (ref_id audit) then Ok true else Ok false
             else Ok true
         end
       else Ok true)
    (auditRefs category).

(** The callback of [Object.keys(categories).forEach] (lines 84-89); the
    variable it updates is [validAudit]. *)
Definition look_up_audit (categories : obj Category) (auditId : string)
    (validAudit : bool) (categoryId : string) : result bool :=
  match get categories categoryId with
  | Own category =>
      match find (fun auditRef => String.eqb (ref_id auditRef) auditId)
                 (auditRefs category) with
      | Some _ => Ok true
      | None => Ok validAudit
      end
  | Inherited _ | Absent => Throw TypeError
  end.

Definition validateAudits (categories : obj Category) (options : Options)
  : result unit :=
  match onlyAudits options with
  | Some only =>
      forEach
        (fun auditId =>
           let validAudit := false in
           validAudit <-
             forEach_with (look_up_audit categories auditId)
                          (Object_keys categories) validAudit ;;
           if negb validAudit
           then Throw (Error ("Audit <" ++ auditId ++ "> is unknown"))
           else Ok tt)
        only
  | None => Ok tt
  end.

Definition validateCategories (categories : obj Category) (options : Options)
  : result unit :=
  match scores options with
  | Some scores =>
      forEach
        (fun categoryId =>
           match get categories categoryId with
           | Absent => Throw (Error ("Category <" ++ categoryId ++ "> is unknown"))
           | Own _ | Inherited _ => Ok tt
           end)
        (Object_keys scores)
  | None => Ok tt
  end.

(** ** Audit status *)

(** [v === s] for a string literal [s]. *)
Definition is_string (v : value) (s : string) : bool :=
  match v with
  | VString s' => String.eqb s' s
  | _ => false
  end.

(** The literal [0.75], that is [3 * 2^-2]. *)
Definition threshold : number := S754_finite false 6755399441055744 (-53).

(**  0 => not passed,  1 => passed,  2 => not applicable *)
Definition auditPassedStatus (audit : Audit) : Z :=
  let mode := scoreDisplayMode audit in
  if is_string mode "manual" || is_string mode "not-applicable"
     || is_string mode "informative" then 2
  else if is_string mode "error" then 0
  else if ge (ToNumber (score audit)) threshold then 1 else 0.

(** ** Presentation layer

    Console output is recorded as the sequence of calls of the print
    helpers; colours and the table layout belong to the libraries behind
    them. *)

(** [figures.tick], [figures.cross], [figures.questionMarkPrefix] *)
Inductive glyph := tick | cross | questionMarkPrefix.

(** An entry of [tableData] in the scores section. *)
Record ScoreRow := {
  row_result : glyph;
  row_category : value;
  row_minScore : value;
  row_score : number
}.

(** An entry of [tableData] in the audits section. *)
Record AuditRow := {
  row_audit : value;
  row_audit_result : glyph
}.

(** The argument of a call of [log]. *)
Inductive message :=
| Scanning (url : value)                       (* the progress line *)
| Underlined (text : value)                    (* [chalk.underline(audit.title)] *)
| Described (warning : bool) (text : value)    (* [prefix] and [audit.description] *)
| FailedAudit (result : glyph) (id : value)    (* the result and [audit.id], bold red *)
| ScoreTable (rows : list ScoreRow)            (* [t.toString()], scores *)
| AuditTable (rows : list AuditRow).           (* [t.toString()], audits *)

Inductive output :=
| Headline (text : string)
| SubHeadline (text : value)
| Log (m : message)
| Linebreak
| PrettyJson (a : Audit).

(** A computation that prints and then returns or throws. *)
Definition IO (A : Type) : Type := list output * result A.

Definition ret {A} (a : A) : IO A := ([], Ok a).

Definition throw {A} (e : error) : IO A := ([], Throw e).

Definition lift {A} (r : result A) : IO A := ([], r).

Definition emit (o : output) : IO unit := ([o], Ok tt).

Definition io_bind {A B} (m : IO A) (k : A -> IO B) : IO B :=
  match m with
  | (out, Ok a) => let '(out', r) := k a in ((out ++ out')%list, r)
  | (out, Throw e) => (out, Throw e)
  end.

Notation "x <~ m ;; k" := (io_bind m (fun x => k))
  (at level 61, m at next level, right associativity).
Notation "m ;;~ k" := (io_bind m (fun _ => k))
  (at level 61, right associativity).

(** [l.forEach(f)] for a callback that prints, updates the variables [S] of
    the enclosing function and may throw. *)
Fixpoint forEach_io {A S} (f : S -> A -> IO S) (l : list A) (s : S) : IO S :=
  match l with
  | [] => ret s
  | x :: l' => s' <~ f s x ;; forEach_io f l' s'
  end.

Definition log (m : message) : IO unit := emit (Log m).
Definition linebreak : IO unit := emit Linebreak.
Definition headline (text : string) : IO unit := emit (Headline text).
Definition subHeadline (text : value) : IO unit := emit (SubHeadline text).
Definition prettyJson (a : Audit) : IO unit := emit (PrettyJson a).

(** ** Scan orchestrator *)

(** What [category.score] and [category.title] read on the outcome of
    [results.categories[categoryId]]; a member of [Object.prototype] has
    neither property. *)
Definition score_of (category : property Category) : value :=
  match category with
  | Own c => cat_score c
  | Inherited _ | Absent => VUndefined
  end.

Definition title_of (category : property Category) : value :=
  match category with
  | Own c => VString (cat_title c)
  | Inherited _ | Absent => VUndefined
  end.

(** The value of [options.scores[categoryId]]. *)
Definition minScore_of (minScore : property number) : value :=
  match minScore with
  | Own x => VNumber x
  | Inherited name => VBuiltin name
  | Absent => VUndefined
  end.

(** The object [results.audits[auditRef.id]] as far as its five fields go;
    a member of [Object.prototype] has none of them; [None] is
    [undefined]. *)
Definition audit_of (audit : property Audit) : option Audit :=
  match audit with
  | Own a => Some a
  | Inherited _ =>
      Some {| audit_id := VUndefined; title := VUndefined;
              description := VUndefined; score := VUndefined;
              scoreDisplayMode := VUndefined |}
  | Absent => None
  end.

(** The callback of [category.auditRefs.forEach] (lines 202-209). *)
Definition describe_audit (results : Report) (_ : unit) (auditRef : AuditRef)
  : IO unit :=
  match audit_of (get (audits results) (ref_id auditRef)) with
  | Some audit =>
      subHeadline (audit_id audit) ;;~
      log (Underlined (title audit)) ;;~
      log (Described (is_string (scoreDisplayMode audit) "manual")
                     (description audit))
  | None => throw TypeError
  end.

(** The callback of [Object.keys(results.categories).forEach]
    (lines 197-210). *)
Definition describe_category (results : Report) (_ : unit) (categoryId : string)
  : IO unit :=
  match get (categories results) categoryId with
  | Own category =>
      headline (cat_title category) ;;~
      forEach_io (describe_audit results) (auditRefs category) tt
  | Inherited _ | Absent => throw TypeError
  end.

(** The [showAudits] branch (lines 196-213). *)
Definition show_audits (results : Report) : IO bool :=
  forEach_io (describe_category results) (Object_keys (categories results)) tt ;;~
  ret false.

(** The callback of [Object.keys(options.scores).forEach] (lines 225-246);
    the variables it updates are [tableData] and [hasFailures]. *)
Definition check_category (results : Report) (scores : obj number)
    (vars : list ScoreRow * bool) (categoryId : string)
  : IO (list ScoreRow * bool) :=
  let '(tableData, hasFailures) := vars in
  match get (categories results) categoryId with
  | Absent => throw TypeError
  | category =>
      let score := mul (ToNumber (score_of category)) (of_Z 100) in
      let minScore := minScore_of (get scores categoryId) in
      if truthy minScore then
        let passed := ge score (ToNumber minScore) in
        let result := if negb passed then cross else tick in
        let hasFailures := if negb passed then true else hasFailures in
        ret ((tableData ++
                [ {| row_result := result; row_category := title_of category;
                     row_minScore := minScore; row_score := score |} ])%list,
             hasFailures)
      else ret (tableData, hasFailures)
  end.

(** The scores section (lines 220-261), entered when [options.scores] is
    truthy. *)
Definition check_categories (results : Report) (scores : obj number)
    (hasFailures : bool) : IO bool :=
  headline "scores" ;;~
  vars <~ forEach_io (check_category results scores) (Object_keys scores)
            ([], hasFailures) ;;
  let '(tableData, hasFailures) := vars in
  linebreak ;;~
  log (ScoreTable tableData) ;;~
  ret hasFailures.

(** The callback of [auditRefs.forEach] (lines 273-300). *)
Definition check_audit (results : Report) (options : Options)
    (vars : list AuditRow * bool) (auditRef : AuditRef)
  : IO (list AuditRow * bool) :=
  let '(tableData, hasFailures) := vars in
  match audit_of (get (audits results) (ref_id auditRef)) with
  | None => throw TypeError
  | Some audit =>
      let passedStatus := auditPassedStatus audit in
      let '(result, hasFailures, hasFailure) :=
        if passedStatus =? 2 then (questionMarkPrefix, hasFailures, false)
        else if passedStatus =? 1 then (tick, hasFailures, false)
        else (cross, true, true) in
      if hasFailure || flag (extendedInfo options) then
        log (FailedAudit result (audit_id audit)) ;;~
        prettyJson audit ;;~
        linebreak ;;~
        linebreak ;;~
        ret (tableData, hasFailures)
      else
        ret ((tableData ++
                [ {| row_audit := audit_id audit; row_audit_result := result |} ])%list,
             hasFailures)
  end.

(** The callback of [Object.keys(results.categories).forEach]
    (lines 265-315); the variable it updates is [hasFailures]. *)
Definition check_category_audits (results : Report) (options : Options)
    (hasFailures : bool) (categoryId : string) : IO bool :=
  match get (categories results) categoryId with
  | Own category =>
      auditRefs <~ lift (filterAudits category options) ;;
      if (0 <? List.length auditRefs)%nat then
        subHeadline (VString (cat_title category)) ;;~
        vars <~ forEach_io (check_audit results options) auditRefs
                  ([], hasFailures) ;;
        let '(tableData, hasFailures) := vars in
        linebreak ;;~
        log (AuditTable tableData) ;;~
        ret hasFailures
      else ret hasFailures
  | Inherited _ | Absent => throw TypeError
  end.

(** The audits section (lines 264-315). *)
Definition check_audits (results : Report) (options : Options)
    (hasFailures : bool) : IO bool :=
  headline "audits" ;;~
  forEach_io (check_category_audits results options)
             (Object_keys (categories results)) hasFailures.

Section Runner.

(** [run(url)]: launch the browser, run the audit engine on [url], stop
    the browser, return the report. *)
Variable run : value -> result Report.

Definition scan (url : value) (options : Options) : IO bool :=
  let hasFailures := false in
  results <~ lift (run url) ;;
  if flag (showAudits options) then show_audits results
  else
    lift (validateCategories (categories results) options) ;;~
    lift (validateAudits (categories results) options) ;;~
    hasFailures <~
      (match scores options with
       | Some scores => check_categories results scores hasFailures
       | None => ret hasFailures
       end) ;;
    check_audits results options hasFailures.

Variable readConfig : value -> result Options.

(** [module.exports] *)
Definition main (argv : Argv) : IO bool :=
  options <~ lift (prepareOptions readConfig argv) ;;
  match urls options with
  | None => throw TypeError
  | Some urls =>
      forEach_io
        (fun hasFailures url =>
           log (Scanning url) ;;~
           hasFailure <~ scan url options ;;
           ret (hasFailure || hasFailures))
        urls false
  end.

End Runner.

End Keeper.

(* ================================================================== *)
(** * Specification vocabulary and sample data *)
(* ================================================================== *)

Module Spec.
Import JS Keeper.

(** The display modes the classification names. *)
Definition not_applicable_mode (mode : value) : Prop :=
  mode = VString "manual" \/ mode = VString "not-applicable"
  \/ mode = VString "informative".

Definition error_mode (mode : value) : Prop := mode = VString "error".

(** Every other value of [scoreDisplayMode]: [numeric], [binary], an
    unlisted string, or no string at all. *)
Definition scored_mode (mode : value) : Prop :=
  ~ not_applicable_mode mode /\ ~ error_mode mode.

(** The numbers the literals [0.75] and [0.7499] denote. *)
Definition n0_75 : number := StringToNumber "0.75".
Definition n0_7499 : number := StringToNumber "0.7499".

(** [id] occurs in the audit references of some category. *)
Definition listed (categories : obj Category) (id : string) : Prop :=
  exists k c r,
    get_own k categories = Some c /\ In r (auditRefs c) /\ ref_id r = id.

(** No configuration file can be read. *)
Definition no_config_file : value -> result Options :=
  fun _ => Throw (External "ENOENT").

(** [--url=https://example.com --audits=a,b --scores=perf:90,seo:50] *)
Definition example_argv : Argv :=
  {| argv_config := VUndefined;
     argv_url := VString "https://example.com";
     argv_audits := VString "a,b";
     argv_scores := VString "perf:90,seo:50";
     argv_showaudits := VUndefined |}.

Definition example_audit (mode score : value) : Audit :=
  {| audit_id := VString "uses-https"; title := VString "Uses HTTPS";
     description := VString "All sites should be protected with HTTPS";
     score := score; scoreDisplayMode := mode |}.

Definition abc : Category :=
  {| cat_title := "Performance"; cat_score := VNumber (StringToNumber "0.95");
     auditRefs := [ {| ref_id := "a" |}; {| ref_id := "b" |}; {| ref_id := "c" |} ] |}.

Definition only_ab (all : bool) : Options :=
  {| urls := Some []; onlyAudits := Some ["a"; "b"]; scores := None;
     showAudits := None; extendedInfo := Some false; allAudits := Some all |}.

(** [l] is [l'] with some elements left out: nothing is reordered or
    repeated. *)
Inductive sublist {A} : list A -> list A -> Prop :=
| sublist_nil : sublist [] []
| sublist_keep x l l' : sublist l l' -> sublist (x :: l) (x :: l')
| sublist_skip x l l' : sublist l l' -> sublist l (x :: l').

(** The record the example of the specification expects. *)
Definition expected_with_showAudits : Options :=
  {| urls := Some [VString "https://example.com"];
     onlyAudits := Some ["a"; "b"];
     scores := Some [("perf", of_Z 90); ("seo", of_Z 50)];
     showAudits := Some false;
     extendedInfo := Some false;
     allAudits := Some false |}.

(** The record the bundle builds: the same without the key [showAudits]. *)
Definition expected_without_showAudits : Options :=
  {| urls := Some [VString "https://example.com"];
     onlyAudits := Some ["a"; "b"];
     scores := Some [("perf", of_Z 90); ("seo", of_Z 50)];
     showAudits := None;
     extendedInfo := Some false;
     allAudits := Some false |}.

Definition only_foo : obj Category :=
  [ ("foo", {| cat_title := "Foo"; cat_score := VNumber (of_Z 1); auditRefs := [] |}) ].

Definition with_scores (scores : obj number) : Options :=
  {| urls := Some []; onlyAudits := Some []; scores := Some scores;
     showAudits := None; extendedInfo := Some false; allAudits := Some false |}.

Definition with_onlyAudits (only : list string) : Options :=
  {| urls := Some []; onlyAudits := Some only; scores := None;
     showAudits := None; extendedInfo := Some false; allAudits := Some false |}.

(** The flags [--url=https://example.com --scores=<scores>]. *)
Definition scores_flag (scores : string) : Argv :=
  {| argv_config := VUndefined; argv_url := VString "https://example.com";
     argv_audits := VUndefined; argv_scores := VString scores;
     argv_showaudits := VUndefined |}.

Fixpoint no_line_terminator (s : string) : bool :=
  match s with
  | EmptyString => true
  | String c s' => dot c && no_line_terminator s'
  end.

(** Splitting on the first colon, as the specification words it. *)
Fixpoint split_first_colon (token : string) : option (string * string) :=
  match token with
  | EmptyString => None
  | String c rest =>
      if Ascii.eqb c ":" then Some (EmptyString, rest)
      else match split_first_colon rest with
           | Some (before, after) => Some (String c before, after)
           | None => None
           end
  end.

(** The reading of the specification: the scores mapping built from the
    single token [token] maps the text before the first colon to the number
    the text after it converts to. *)
Definition first_colon_reading (token : string) : Prop :=
  forall before after,
    split_first_colon token = Some (before, after) ->
    exists options minimums,
      getConfig no_config_file (scores_flag token) = Ok options
      /\ scores options = Some minimums
      /\ get_own before minimums = Some (mul (StringToNumber after) (of_Z 1)).

(** [token] holds no line terminator (line feed or carriage return, which
    [.] does not match) and is [key:text] where the colon shown is the last
    colon of [token] that has something after it: [key] is not empty, and
    [text] is not empty and has no colon before its last character. *)
Definition last_colon_split (token key text : string) : Prop :=
  token = key ++ ":" ++ text
  /\ key <> ""
  /\ no_line_terminator token = true
  /\ exists body c, text = body ++ String c "" /\ mem_char ":" body = false.

(** Every audit reference of the report leads to something in
    [results.audits]. *)
Definition refs_resolve (results : Report) : Prop :=
  forall k c r,
    get_own k (categories results) = Some c -> In r (auditRefs c) ->
    get (audits results) (ref_id r) <> Absent.

(** A category score as the engine reports it: [null] or a number. *)
Definition numeric_score (v : value) : Prop :=
  v = VNull \/ exists x, v = VNumber x /\ is_nan x = false.

Definition truthy_minimum (scores : obj number) (k : string) : bool :=
  match get_own k scores with
  | Some minimum => truthy_number minimum
  | None => false
  end.

(** The keys of [options.scores] with a truthy minimum, in the order
    [Object.keys] gives them. *)
Definition scored_keys (scores : obj number) : list string :=
  filter (truthy_minimum scores) (Object_keys scores).

Definition audit_entry (id : string) (mode score : value) : string * Audit :=
  (id, {| audit_id := VString id; title := VString id;
          description := VString "A description of the audit";
          score := score; scoreDisplayMode := mode |}).

(** A report of one category with three audits. *)
Definition example_report : Report :=
  {| categories := [("perf", abc)];
     audits :=
       [ audit_entry "a" (VString "binary") (VNumber (of_Z 1));
         audit_entry "b" (VString "manual") VNull;
         audit_entry "c" (VString "numeric") (VNumber n0_75) ] |}.

(** A report whose only category, [perf], has the score [score] and no
    audits, and the runner that returns it for every URL. *)
Definition perf_only (score : string) : Report :=
  {| categories :=
       [ ("perf", {| cat_title := "Performance";
                     cat_score := VNumber (StringToNumber score);
                     auditRefs := [] |}) ];
     audits := [] |}.

Definition always (results : Report) : value -> result Report :=
  fun _ => Ok results.

(** Options that ask for the audit descriptions and name a category and an
    audit the report does not have. *)
Definition show_with_unknown_ids : Options :=
  {| urls := Some []; onlyAudits := Some ["nope"];
     scores := Some [("bar", of_Z 50)]; showAudits := Some true;
     extendedInfo := Some false; allAudits := Some false |}.

(** [row] is the table row of the category [k]: its title, its score times
    100, its minimum, and a cross when the former is below the latter. *)
Definition row_of (results : Report) (scores : obj number)
    (row : ScoreRow) (k : string) : Prop :=
  exists minimum c,
    get_own k scores = Some minimum
    /\ get_own k (categories results) = Some c
    /\ row_category row = VString (cat_title c)
    /\ row_minScore row = VNumber minimum
    /\ row_score row = mul (ToNumber (cat_score c)) (of_Z 100)
    /\ row_result row = if lt (row_score row) minimum then cross else tick.

(** Minimum scores 90 for [perf] and 0 for [seo]. *)
Definition perf_90_seo_0 : obj number := [("perf", of_Z 90); ("seo", of_Z 0)].

Definition perf_seo (perf seo : value) : Report :=
  {| categories :=
       [ ("perf", {| cat_title := "Performance"; cat_score := perf; auditRefs := [] |});
         ("seo", {| cat_title := "SEO"; cat_score := seo; auditRefs := [] |}) ];
     audits := [] |}.

(** [m * 2^e >= 3/4], with the fractions cleared: the real value of the
    finite number with mantissa [m] and exponent [e] is at least 0.75. *)
Definition at_least_0_75 (m : positive) (e : Z) : Prop :=
  3 * 2 ^ Z.max 0 (- e) <= 4 * Zpos m * 2 ^ Z.max 0 e.

(** ** Vocabulary of the further properties *)

(** The value of a field once its default is filled in. *)
Definition or_default {A} (d : A) (f : option A) : A :=
  match f with Some x => x | None => d end.

(** [l.join(sep)] for a separator of one code unit. *)
Fixpoint join (sep : ascii) (l : list string) : string :=
  match l with
  | [] => EmptyString
  | [t] => t
  | t :: l' => t ++ String sep (join sep l')
  end.

(** The flags of [argv] the configuration file makes irrelevant, taken
    away. *)
Definition config_only (argv : Argv) : Argv :=
  {| argv_config := argv_config argv; argv_url := VUndefined;
     argv_audits := VUndefined; argv_scores := VUndefined;
     argv_showaudits := argv_showaudits argv |}.

(** A configuration file that holds two URLs and nothing else. *)
Definition two_urls : value -> result Options :=
  fun _ => Ok {| urls := Some [VString "https://a.example"; VString "https://b.example"];
                 onlyAudits := None; scores := None; showAudits := None;
                 extendedInfo := None; allAudits := None |}.

(** The flags [--config=keeper.json --scores=perf90 --showaudits]. *)
Definition config_and_bad_scores : Argv :=
  {| argv_config := VString "keeper.json"; argv_url := VUndefined;
     argv_audits := VUndefined; argv_scores := VString "perf90";
     argv_showaudits := VBool true |}.

(** [category] with its audit references replaced. *)
Definition with_auditRefs (category : Category) (refs : list AuditRef) : Category :=
  {| cat_title := cat_title category; cat_score := cat_score category;
     auditRefs := refs |}.

(** Options without the key [onlyAudits], as a configuration file may give
    them when they do not go through [prepareOptions]. *)
Definition without_onlyAudits : Options :=
  {| urls := Some []; onlyAudits := None; scores := None; showAudits := None;
     extendedInfo := None; allAudits := None |}.

(** Minimum scores for three categories the report does not have, one of
    them named by an array index. *)
Definition unknown_minimums : obj number :=
  [("zeta", of_Z 50); ("10", of_Z 50); ("2", of_Z 50); ("toString", of_Z 50)].

(** The audit behind [r] is classified "not passed". *)
Definition fails (results : Report) (r : AuditRef) : bool :=
  match audit_of (get (audits results) (ref_id r)) with
  | Some a => auditPassedStatus a =? 0
  | None => false
  end.

(** Some audit that [filterAudits] keeps is classified "not passed". *)
Definition audit_failure (results : Report) (options : Options) : Prop :=
  exists k c kept r,
    get_own k (categories results) = Some c
    /\ filterAudits c options = Ok kept
    /\ In r kept /\ fails results r = true.

(** Some category with a truthy minimum does not reach it. *)
Definition score_failure (results : Report) (scores : obj number) : Prop :=
  exists k minimum,
    get_own k scores = Some minimum
    /\ truthy_number minimum = true
    /\ ge (mul (ToNumber (score_of (get (categories results) k))) (of_Z 100))
          minimum = false.

Definition is_detail (o : output) : bool :=
  match o with PrettyJson _ => true | _ => false end.

(** What holds of every compact audit table: no row shows a cross, and with
    [extendedInfo] set there is no row at all. *)
Definition table_without_failures (extended : bool) (o : output) : Prop :=
  match o with
  | Log (AuditTable rows) =>
      Forall (fun row => row_audit_result row <> cross) rows
      /\ (extended = true -> rows = [])
  | _ => True
  end.

(** A report whose category refers to an audit the report does not hold. *)
Definition dangling_report : Report :=
  {| categories := [("perf", abc)];
     audits := [ audit_entry "a" (VString "binary") (VNumber (of_Z 1)) ] |}.

(** A runner that fails for the URL [https://b.example] and reports
    [results] for every other URL. *)
Definition fails_on_b (results : Report) : value -> result Report :=
  fun url =>
    match url with
    | VString "https://b.example" => Throw (External "ECONNREFUSED")
    | _ => Ok results
    end.

(** The flags [--scores=perf:90], without [--url]. *)
Definition no_url : Argv :=
  {| argv_config := VUndefined; argv_url := VUndefined;
     argv_audits := VUndefined; argv_scores := VString "perf:90";
     argv_showaudits := VUndefined |}.

(** A configuration file that holds an empty list of URLs. *)
Definition zero_urls : value -> result Options :=
  fun _ => Ok {| urls := Some []; onlyAudits := None;
                 scores := Some [("perf", of_Z 90)]; showAudits := None;
                 extendedInfo := None; allAudits := None |}.

(** The flags [--config=keeper.json]. *)
Definition config_flag : Argv :=
  {| argv_config := VString "keeper.json"; argv_url := VUndefined;
     argv_audits := VUndefined; argv_scores := VUndefined;
     argv_showaudits := VUndefined |}.

(** The scores mapping [getConfig] builds from the flag [--scores=<scores>]
    alone. *)
Definition scores_of_flag (scores : string) : option (obj number) :=
  match getConfig no_config_file (scores_flag scores) with
  | Ok options => Keeper.scores options
  | Throw _ => None
  end.

End Spec.

(* ================================================================== *)
(** * Theorems *)
(* ================================================================== *)

Import JS Keeper Spec.

(** ** Audit status *)

Lemma is_string_true (v : value) (s : string) :
  is_string v s = true <-> v = VString s.
Proof.
  destruct v; simpl; try (split; [discriminate | intros H; discriminate H]).
  rewrite String.eqb_eq. split; [intros -> | intros [= ->]]; reflexivity.
Qed.

Lemma is_string_false (v : value) (s : string) :
  is_string v s = false <-> v <> VString s.
Proof.
  rewrite <- is_string_true. destruct (is_string v s); split; congruence.
Qed.

Lemma threshold_literal : threshold = n0_75.
Proof. reflexivity. Qed.

Lemma scored_mode_tests (mode : value) :
  scored_mode mode ->
  is_string mode "manual" || is_string mode "not-applicable"
    || is_string mode "informative" = false
  /\ is_string mode "error" = false.
Proof.
  intros [Hna Herr]. unfold not_applicable_mode, error_mode in *.
  repeat rewrite orb_false_iff. repeat rewrite is_string_false.
  repeat split; intros E;
    first [ apply Herr; exact E | apply Hna; solve [ auto ] ].
Qed.

(** The status of an audit with a scored display mode is decided by the
    comparison alone. *)
Lemma auditPassedStatus_scored (audit : Audit) :
  scored_mode (scoreDisplayMode audit) ->
  auditPassedStatus audit =
    if ge (ToNumber (score audit)) threshold then 1 else 0.
Proof.
  intros H. destruct (scored_mode_tests _ H) as [H1 H2].
  unfold auditPassedStatus. rewrite H1, H2. reflexivity.
Qed.

(** A mantissa of [d] binary digits lies between [2^(d-1)] and [2^d]. *)
Lemma digits2_bounds (m : positive) :
  2 ^ (Zpos (digits2_pos m) - 1) <= Zpos m < 2 ^ Zpos (digits2_pos m).
Proof.
  induction m as [p IH | p IH |]; cbn [digits2_pos].
  - rewrite Pos2Z.inj_succ. change (Zpos p~1) with (2 * Zpos p + 1).
    replace (Z.succ (Zpos (digits2_pos p)) - 1)
      with (Z.succ (Zpos (digits2_pos p) - 1)) by lia.
    rewrite !Z.pow_succ_r by lia.
    destruct IH as [IH1 IH2]. revert IH1 IH2.
    generalize (2 ^ (Zpos (digits2_pos p) - 1)) (2 ^ Zpos (digits2_pos p)).
    intros. lia.
  - rewrite Pos2Z.inj_succ. change (Zpos p~0) with (2 * Zpos p).
    replace (Z.succ (Zpos (digits2_pos p)) - 1)
      with (Z.succ (Zpos (digits2_pos p) - 1)) by lia.
    rewrite !Z.pow_succ_r by lia.
    destruct IH as [IH1 IH2]. revert IH1 IH2.
    generalize (2 ^ (Zpos (digits2_pos p) - 1)) (2 ^ Zpos (digits2_pos p)).
    intros. lia.
  - simpl. lia.
Qed.

(** On the finite binary64 numbers, the comparison with the threshold is the
    comparison of the real values: [x >= 0.75] holds exactly for the
    positive [x = m * 2^e] with [m * 2^e >= 3/4]. *)
Lemma ge_threshold_finite (s : bool) (m : positive) (e : Z) :
  bounded prec emax m e = true ->
  (ge (S754_finite s m e) threshold = true <-> s = false /\ at_least_0_75 m e).
Proof.
  unfold bounded, canonical_mantissa, fexp, SpecFloat.emin, prec, emax.
  intros H. apply andb_true_iff in H. destruct H as [Hc He].
  apply Z.eqb_eq in Hc. apply Z.leb_le in He.
  pose proof (digits2_bounds m) as [Hlo Hhi].
  remember (Zpos (digits2_pos m)) as d eqn:Hd.
  assert (Hd1 : 1 <= d) by (subst d; lia). clear Hd.
  unfold ge, threshold, at_least_0_75. cbn [SFcompare].
  destruct s; [split; [discriminate | intros [H _]; discriminate H] |].
  destruct (Z.compare_spec e (-53)) as [-> | Hlt | Hgt].
  - change (Z.max 0 (- -53)) with 53. change (Z.max 0 (-53)) with 0.
    change (2 ^ 53) with 9007199254740992. change (2 ^ 0) with 1.
    rewrite Pos.compare_cont_spec. cbn [Pos.switch_Eq].
    rewrite Pos2Z.inj_compare.
    clear. generalize (Zpos m). intros z.
    destruct (Z.compare_spec z 6755399441055744) as [Hm | Hm | Hm].
    + split; [intros _; split; [reflexivity | lia] | reflexivity].
    + split; [discriminate | intros [_ H]; lia].
    + split; [intros _; split; [reflexivity | lia] | reflexivity].
  - split; [discriminate |]. intros [_ H]. exfalso.
    rewrite Z.max_r, Z.max_l in H by lia.
    assert (Hd : d <= 53) by lia.
    pose proof (Z.pow_le_mono_r 2 d 53 ltac:(lia) Hd) as H1.
    pose proof (Z.pow_le_mono_r 2 54 (- e) ltac:(lia) ltac:(lia)) as H2.
    change (2 ^ 53) with 9007199254740992 in H1.
    change (2 ^ 54) with 18014398509481984 in H2.
    change (2 ^ 0) with 1 in H.
    revert H H1 H2 Hhi. clear.
    generalize (2 ^ d) (2 ^ (- e)). intros X Y. lia.
  - split; [| reflexivity]. intros _. split; [reflexivity |].
    assert (Hd : d = 53) by lia. rewrite Hd in Hlo.
    change (2 ^ (53 - 1)) with 4503599627370496 in Hlo.
    destruct (Z.le_gt_cases e 0) as [Hneg | Hpos].
    + rewrite Z.max_r, Z.max_l by lia.
      pose proof (Z.pow_le_mono_r 2 (- e) 52 ltac:(lia) ltac:(lia)) as H1.
      change (2 ^ 52) with 4503599627370496 in H1.
      change (2 ^ 0) with 1.
      revert H1 Hlo. clear. generalize (2 ^ (- e)). intros X. lia.
    + rewrite Z.max_l, Z.max_r by lia.
      pose proof (Z.pow_pos_nonneg 2 e ltac:(lia) ltac:(lia)) as H1.
      change (2 ^ 0) with 1.
      revert H1 Hlo. clear. generalize (2 ^ e). intros X. nia.
Qed.

(** C1: [auditPassedStatus] classifies every audit: display modes manual,
    not-applicable and informative give 2 whatever the score; error gives 0
    whatever the score; every other display mode gives 1 when
    [score >= 0.75] and 0 otherwise, so that the score 0.75 passes and the
    score 0.7499 fails; on a finite number the comparison is that of the
    real values. *)
Theorem auditPassedStatus_classification (audit : Audit) :
  (not_applicable_mode (scoreDisplayMode audit) -> auditPassedStatus audit = 2)
  /\ (error_mode (scoreDisplayMode audit) -> auditPassedStatus audit = 0)
  /\ (scored_mode (scoreDisplayMode audit) ->
        (ge (ToNumber (score audit)) n0_75 = true <-> auditPassedStatus audit = 1)
        /\ (ge (ToNumber (score audit)) n0_75 = false <-> auditPassedStatus audit = 0)
        /\ (score audit = VNumber n0_75 -> auditPassedStatus audit = 1)
        /\ (score audit = VNumber n0_7499 -> auditPassedStatus audit = 0)
        /\ (forall s m e,
              score audit = VNumber (S754_finite s m e) ->
              bounded prec emax m e = true ->
              (auditPassedStatus audit = 1 <-> s = false /\ at_least_0_75 m e))).
Proof.
  split; [| split].
  - intros [H | [H | H]]; unfold auditPassedStatus; rewrite H; reflexivity.
  - intros H. unfold error_mode in H. unfold auditPassedStatus.
    rewrite H. reflexivity.
  - intros H. rewrite (auditPassedStatus_scored _ H), threshold_literal.
    split; [| split; [| split; [| split]]].
    + split; [intros ->; reflexivity |].
      destruct (ge _ _); [reflexivity | discriminate].
    + split; [intros ->; reflexivity |].
      destruct (ge _ _); [discriminate | reflexivity].
    + intros ->. reflexivity.
    + intros ->. reflexivity.
    + intros s m e Hscore Hbounded.
      rewrite Hscore. cbn [ToNumber]. rewrite <- threshold_literal.
      rewrite <- (ge_threshold_finite s m e Hbounded).
      destruct (ge _ _); split; intros E; reflexivity || discriminate E.
Qed.

Ltac scored_mode_by_cases :=
  let E := fresh "E" in
  split; [ intros [E | [E | E]]; discriminate E | intros E; discriminate E ].

Lemma auditPassedStatus_classification_witness :
  auditPassedStatus (example_audit (VString "manual") (VNumber n0_75)) = 2
  /\ auditPassedStatus (example_audit (VString "error") (VNumber n0_75)) = 0
  /\ auditPassedStatus (example_audit (VString "numeric") (VNumber n0_75)) = 1
  /\ auditPassedStatus (example_audit (VString "numeric") (VNumber n0_7499)) = 0.
Proof.
  split; [| split; [| split]].
  - destruct (auditPassedStatus_classification
                (example_audit (VString "manual") (VNumber n0_75)))
      as (H & _).
    apply H. left. reflexivity.
  - destruct (auditPassedStatus_classification
                (example_audit (VString "error") (VNumber n0_75)))
      as (_ & H & _).
    apply H. reflexivity.
  - destruct (auditPassedStatus_classification
                (example_audit (VString "numeric") (VNumber n0_75)))
      as (_ & _ & H).
    assert (Hmode : scored_mode (VString "numeric")) by scored_mode_by_cases.
    destruct (H Hmode) as (_ & _ & Hpass & _). exact (Hpass eq_refl).
  - destruct (auditPassedStatus_classification
                (example_audit (VString "numeric") (VNumber n0_7499)))
      as (_ & _ & H).
    assert (Hmode : scored_mode (VString "numeric")) by scored_mode_by_cases.
    destruct (H Hmode) as (_ & _ & _ & Hfail & _). exact (Hfail eq_refl).
Defined.

(** C10: an audit with a scored display mode and the score [null] is
    classified failed: [null] converts to 0, which is below 0.75. *)
Theorem auditPassedStatus_null_score (audit : Audit) :
  scored_mode (scoreDisplayMode audit) ->
  score audit = VNull ->
  ToNumber (score audit) = pos_zero
  /\ ge pos_zero n0_75 = false
  /\ auditPassedStatus audit = 0.
Proof.
  intros Hmode Hscore.
  rewrite (auditPassedStatus_scored _ Hmode), Hscore.
  repeat split.
Qed.

Lemma auditPassedStatus_null_score_witness :
  auditPassedStatus (example_audit (VString "numeric") VNull) = 0.
Proof.
  apply (auditPassedStatus_null_score (example_audit (VString "numeric") VNull)).
  - scored_mode_by_cases.
  - reflexivity.
Defined.

(** ** Audit filtering *)

(** A callback that never throws makes [filter_with] the list filter. *)
Lemma filter_with_pure {A} (f : A -> result bool) (p : A -> bool) (l : list A) :
  (forall x, In x l -> f x = Ok (p x)) ->
  filter_with f l = Ok (filter p l).
Proof.
  induction l as [| x l IH]; intros Hf; simpl.
  - reflexivity.
  - rewrite (Hf x (or_introl eq_refl)). simpl.
    rewrite IH by (intros y Hy; apply Hf; right; exact Hy). simpl.
    destruct (p x); reflexivity.
Qed.

Lemma filter_all {A} (l : list A) : filter (fun _ => true) l = l.
Proof.
  induction l as [| x l IH]; simpl; [reflexivity | now rewrite IH].
Qed.

Lemma includes_In (l : list string) (x : string) :
  includes l x = true <-> In x l.
Proof.
  unfold includes. rewrite existsb_exists. split.
  - intros (y & Hy & E). apply String.eqb_eq in E. now subst.
  - intros H. exists x. split; [exact H | apply String.eqb_refl].
Qed.

Lemma filter_sublist {A} (p : A -> bool) (l : list A) : sublist (filter p l) l.
Proof.
  induction l as [| x l IH]; simpl.
  - constructor.
  - destruct (p x); constructor; exact IH.
Qed.

(** C4: with [allAudits] false and a non-empty [onlyAudits], [filterAudits]
    returns the audit references whose id is in [onlyAudits], in their
    original order; with [allAudits] true, or with an empty [onlyAudits], it
    returns all of them unchanged. *)
Theorem filterAudits_spec (category : Category) (options : Options) :
  (forall only,
      flag (allAudits options) = false ->
      onlyAudits options = Some only ->
      only <> [] ->
      exists kept,
        filterAudits category options = Ok kept
        /\ kept = filter (fun a => includes only (ref_id a)) (auditRefs category)
        /\ sublist kept (auditRefs category)
        /\ (forall a, In a kept <->
                      In a (auditRefs category) /\ In (ref_id a) only))
  /\ (flag (allAudits options) = true ->
      filterAudits category options = Ok (auditRefs category))
  /\ (onlyAudits options = Some [] ->
      filterAudits category options = Ok (auditRefs category)).
Proof.
  split; [| split].
  - intros only Hall Honly Hne.
    exists (filter (fun a => includes only (ref_id a)) (auditRefs category)).
    split; [| split; [reflexivity | split]].
    + unfold filterAudits. apply filter_with_pure. intros a _.
      rewrite Hall, Honly. simpl.
      destruct only as [| x only]; [contradiction Hne; reflexivity |].
      simpl Nat.ltb. cbv iota.
      destruct (includes (x :: only) (ref_id a)); reflexivity.
    + apply filter_sublist.
    + intros a. rewrite filter_In, includes_In. reflexivity.
  - intros Hall. unfold filterAudits.
    rewrite (filter_with_pure _ (fun _ => true)).
    + now rewrite filter_all.
    + intros a _. rewrite Hall. reflexivity.
  - intros Honly. unfold filterAudits.
    rewrite (filter_with_pure _ (fun _ => true)).
    + now rewrite filter_all.
    + intros a _. rewrite Honly. destruct (flag (allAudits options)); reflexivity.
Qed.

Lemma filterAudits_spec_witness :
  filterAudits abc (only_ab false) = Ok [ {| ref_id := "a" |}; {| ref_id := "b" |} ]
  /\ filterAudits abc (only_ab true)
     = Ok [ {| ref_id := "a" |}; {| ref_id := "b" |}; {| ref_id := "c" |} ].
Proof.
  split.
  - destruct (filterAudits_spec abc (only_ab false)) as (H & _).
    destruct (H ["a"; "b"] eq_refl eq_refl) as (kept & Hk & E & _).
    + discriminate.
    + rewrite Hk, E. reflexivity.
  - destruct (filterAudits_spec abc (only_ab true)) as (_ & H & _).
    exact (H eq_refl).
Defined.

(** ** Options builder: the documented example *)

(** C7, as stated, fails: the prepared options have no [showAudits] key. *)
Lemma prepareOptions_example_lacks_showAudits :
  prepareOptions no_config_file example_argv <> Ok expected_with_showAudits
  /\ (exists options,
         prepareOptions no_config_file example_argv = Ok options
         /\ showAudits options = None).
Proof.
  split.
  - intros H. vm_compute in H. discriminate H.
  - eexists. split; [vm_compute; reflexivity | reflexivity].
Qed.

(** C7, amended: for the flags [--url=https://example.com --audits=a,b
    --scores=perf:90,seo:50] the prepared options are [urls], [onlyAudits],
    [scores] as given and [extendedInfo], [allAudits] false; the key
    [showAudits] is not set, so that it reads as [undefined], which is
    falsy. *)
Theorem prepareOptions_example (readConfig : value -> result Options) :
  prepareOptions readConfig example_argv = Ok expected_without_showAudits
  /\ option_keys expected_without_showAudits
     = ["urls"; "onlyAudits"; "scores"; "extendedInfo"; "allAudits"]
  /\ flag (showAudits expected_without_showAudits) = false.
Proof.
  repeat split.
Qed.

(** ** Plain objects: keys and lookups *)

Lemma get_own_In {V} (k : string) (o : obj V) :
  (exists v, get_own k o = Some v) <-> In k (map fst o).
Proof.
  induction o as [| [k' v'] o IH]; simpl.
  - split; [intros [v H]; discriminate H | intros []].
  - destruct (String.eqb_spec k k') as [-> | Hne].
    + split; [intros _; left; reflexivity | intros _; now exists v'].
    + rewrite IH. split; [intros H; right; exact H |].
      intros [E | H]; [congruence | exact H].
Qed.

Lemma insert_index_In (k : string) (i : Z) (l : list (string * Z)) (x : string * Z) :
  In x (insert_index k i l) <-> x = (k, i) \/ In x l.
Proof.
  induction l as [| [k' i'] l IH]; simpl.
  - intuition congruence.
  - destruct (i <=? i'); simpl; [| rewrite IH]; intuition congruence.
Qed.

Lemma index_keys_In (ks : list string) (k : string) (i : Z) :
  In (k, i) (index_keys ks) <-> In k ks /\ array_index k = Some i.
Proof.
  induction ks as [| k' ks IH]; simpl.
  - intuition.
  - destruct (array_index k') as [i' |] eqn:E.
    + rewrite insert_index_In, IH. split.
      * intros [[= -> ->] | [H1 H2]]; auto.
      * intros [[-> | H1] H2]; [left; congruence | right; auto].
    + rewrite IH. split.
      * intros [H1 H2]; auto.
      * intros [[-> | H1] H2]; [congruence | auto].
Qed.

(** [Object.keys] lists exactly the own keys. *)
Lemma Object_keys_In {V} (o : obj V) (k : string) :
  In k (Object_keys o) <-> In k (map fst o).
Proof.
  unfold Object_keys. rewrite in_app_iff, in_map_iff, filter_In.
  unfold is_index. split.
  - intros [([k' i] & E & H) | [H _]]; [| exact H].
    simpl in E. subst k'. now apply index_keys_In in H.
  - intros H. destruct (array_index k) as [i |] eqn:E.
    + left. exists (k, i). split; [reflexivity |]. now apply index_keys_In.
    + right. now split.
Qed.

Lemma Object_keys_own {V} (o : obj V) (k : string) :
  In k (Object_keys o) <-> exists v, get_own k o = Some v.
Proof. now rewrite Object_keys_In, get_own_In. Qed.

Lemma get_Own {V} (o : obj V) (k : string) (v : V) :
  get o k = Own v <-> get_own k o = Some v.
Proof.
  unfold get. destruct (get_own k o) as [v' |].
  - split; intros [= ->]; reflexivity.
  - destruct (includes Object_prototype k); split; discriminate.
Qed.

(** A read comes back [undefined] exactly for a name that is neither an own
    key nor a member of [Object.prototype]. *)
Lemma get_Absent {V} (o : obj V) (k : string) :
  get o k = Absent <-> get_own k o = None /\ ~ In k Object_prototype.
Proof.
  unfold get. destruct (get_own k o) as [v |].
  - split; [discriminate | intros [H _]; discriminate H].
  - destruct (includes Object_prototype k) eqn:E.
    + apply includes_In in E. split; [discriminate | intros [_ H]; contradiction].
    + split; [| reflexivity]. intros _. split; [reflexivity |].
      intros H. apply includes_In in H. congruence.
Qed.

(** ** Loops *)

Lemma forEach_Ok {A} (f : A -> result unit) (l : list A) :
  forEach f l = Ok tt <-> forall x, In x l -> f x = Ok tt.
Proof.
  induction l as [| x l IH]; simpl.
  - split; [intros _ y [] | reflexivity].
  - destruct (f x) as [[] | e] eqn:E; simpl.
    + rewrite IH. split.
      * intros H y [<- | Hy]; [exact E | apply H, Hy].
      * intros H y Hy. apply H. right. exact Hy.
    + split; [discriminate |]. intros H.
      specialize (H x (or_introl eq_refl)). congruence.
Qed.

Lemma forEach_Throw {A} (f : A -> result unit) (l : list A) (e : error) :
  forEach f l = Throw e -> exists x, In x l /\ f x = Throw e.
Proof.
  induction l as [| x l IH]; simpl.
  - discriminate.
  - destruct (f x) as [[] | e'] eqn:E; simpl.
    + intros H. destruct (IH H) as (y & Hy & Ey). exists y. auto.
    + intros [= ->]. exists x. auto.
Qed.

(** ** Validators *)

(** What [validateCategories] really checks: every key of [options.scores]
    must read as something on [categories], be it an own category or a
    member of [Object.prototype]. *)
Lemma validateCategories_spec (categories : obj Category) (options : Options) :
  (validateCategories categories options = Ok tt <->
   forall minimums k,
     scores options = Some minimums -> In k (Object_keys minimums) ->
     get categories k <> Absent)
  /\ (forall e,
         validateCategories categories options = Throw e ->
         exists minimums k,
           scores options = Some minimums /\ In k (Object_keys minimums)
           /\ get categories k = Absent
           /\ e = Error ("Category <" ++ k ++ "> is unknown")).
Proof.
  unfold validateCategories.
  destruct (scores options) as [sc |].
  - split.
    + rewrite forEach_Ok. split.
      * intros H minimums k [= <-] Hk. specialize (H k Hk).
        destruct (get categories k); [discriminate.. | discriminate H].
      * intros H k Hk. specialize (H sc k eq_refl Hk).
        destruct (get categories k); [reflexivity.. | contradiction H; reflexivity].
    + intros e H. apply forEach_Throw in H. destruct H as (k & Hk & E).
      exists sc, k. destruct (get categories k); try discriminate E.
      injection E as <-. auto.
  - split.
    + split; [intros _ minimums k H; discriminate H | reflexivity].
    + intros e H. discriminate H.
Qed.

(** C5: [validateCategories] is meant to throw, naming the category,
    exactly when a key of [options.scores] is no key of [categories].  It
    does so for [bar] and accepts [foo], but it also accepts [constructor],
    which is no key of [categories]: the read [categories[categoryId]] finds
    the member of [Object.prototype] of that name.  The flag
    [--scores=constructor:50] delivers such a key. *)
Theorem validateCategories_accepts_inherited_name :
  validateCategories only_foo (with_scores [("bar", of_Z 50)])
    = Throw (Error "Category <bar> is unknown")
  /\ validateCategories only_foo (with_scores [("foo", of_Z 50)]) = Ok tt
  /\ ~ In "constructor" (Object_keys only_foo)
  /\ validateCategories only_foo (with_scores [("constructor", of_Z 50)]) = Ok tt
  /\ (exists options,
         prepareOptions no_config_file
           {| argv_config := VUndefined; argv_url := VString "https://example.com";
              argv_audits := VUndefined; argv_scores := VString "constructor:50";
              argv_showaudits := VUndefined |} = Ok options
         /\ scores options = Some [("constructor", of_Z 50)]).
Proof.
  split; [reflexivity | split; [reflexivity | split; [| split]]].
  - simpl. intros [H | []]. discriminate H.
  - reflexivity.
  - eexists. split; [vm_compute; reflexivity | reflexivity].
Qed.

Lemma find_exists {A} (p : A -> bool) (l : list A) :
  (exists x, find p l = Some x) <-> exists x, In x l /\ p x = true.
Proof.
  split.
  - intros [x H]. exists x. now apply find_some in H.
  - intros (x & Hx & Hp). destruct (find p l) as [y |] eqn:E.
    + now exists y.
    + rewrite (find_none _ _ E x Hx) in Hp. discriminate Hp.
Qed.

(** One pass over the categories: the flag ends up set exactly when it was
    set before or some category visited refers to the audit. *)
Lemma look_up_audit_loop (categories : obj Category) (auditId : string)
    (ks : list string) (b0 : bool) :
  (forall k, In k ks -> exists c, get_own k categories = Some c) ->
  exists b,
    forEach_with (look_up_audit categories auditId) ks b0 = Ok b
    /\ (b = true <->
        b0 = true
        \/ exists k c r,
             In k ks /\ get_own k categories = Some c
             /\ In r (auditRefs c) /\ ref_id r = auditId).
Proof.
  revert b0. induction ks as [| k ks IH]; intros b0 Hks; simpl.
  - exists b0. split; [reflexivity |]. split; [auto |].
    intros [H | (k & c & r & [] & _)]. exact H.
  - destruct (Hks k (or_introl eq_refl)) as [c Hc].
    unfold look_up_audit at 1. rewrite (proj2 (get_Own _ _ _) Hc).
    assert (Hrest : forall k', In k' ks -> exists c', get_own k' categories = Some c')
      by (intros k' Hk'; apply Hks; right; exact Hk').
    destruct (find _ (auditRefs c)) as [r |] eqn:Ef; simpl.
    + destruct (IH true Hrest) as (b & Hb & Hiff). exists b.
      split; [exact Hb |]. rewrite Hiff. split; [| auto].
      intros _. right. apply find_some in Ef. destruct Ef as [Hr Er].
      apply String.eqb_eq in Er. exists k, c, r. auto.
    + destruct (IH b0 Hrest) as (b & Hb & Hiff). exists b.
      split; [exact Hb |]. rewrite Hiff. split.
      * intros [H | (k' & c' & r & Hk' & Hc' & Hr & Er)]; [auto |].
        right. exists k', c', r. auto.
      * intros [H | (k' & c' & r & [<- | Hk'] & Hc' & Hr & Er)]; [auto | |].
        -- rewrite Hc in Hc'. injection Hc' as <-.
           pose proof (find_none _ _ Ef r Hr) as Hn. simpl in Hn.
           apply String.eqb_neq in Hn. contradiction.
        -- right. exists k', c', r. auto.
Qed.

(** What the body of the outer loop of [validateAudits] does for one
    audit id. *)
Lemma validateAudits_step (categories : obj Category) (auditId : string) :
  exists b,
    forEach_with (look_up_audit categories auditId) (Object_keys categories) false
      = Ok b
    /\ (b = true <-> listed categories auditId).
Proof.
  destruct (look_up_audit_loop categories auditId (Object_keys categories) false)
    as (b & Hb & Hiff).
  - intros k Hk. now apply Object_keys_own.
  - exists b. split; [exact Hb |]. rewrite Hiff. unfold listed. split.
    + intros [H | (k & c & r & _ & H)]; [discriminate H |]. now exists k, c, r.
    + intros (k & c & r & Hc & H). right. exists k, c, r.
      split; [| auto]. apply Object_keys_own. now exists c.
Qed.

(** C6: [validateAudits] returns normally exactly when every id of
    [options.onlyAudits] occurs in the audit references of some category
    (in particular when [onlyAudits] is empty or absent); otherwise it throws
    an error that names an id of [onlyAudits] occurring in no category. *)
Theorem validateAudits_spec (categories : obj Category) (options : Options) :
  (validateAudits categories options = Ok tt <->
   forall only id,
     onlyAudits options = Some only -> In id only -> listed categories id)
  /\ (forall e,
         validateAudits categories options = Throw e ->
         exists only id,
           onlyAudits options = Some only /\ In id only
           /\ ~ listed categories id
           /\ e = Error ("Audit <" ++ id ++ "> is unknown"))
  /\ ((exists only id,
          onlyAudits options = Some only /\ In id only
          /\ ~ listed categories id) ->
      exists id,
        ~ listed categories id
        /\ validateAudits categories options
           = Throw (Error ("Audit <" ++ id ++ "> is unknown"))).
Proof.
  assert (Hstep : forall id,
    (bind (forEach_with (look_up_audit categories id) (Object_keys categories) false)
          (fun validAudit =>
             if negb validAudit
             then Throw (Error ("Audit <" ++ id ++ "> is unknown"))
             else Ok tt) = Ok tt /\ listed categories id)
    \/ (bind (forEach_with (look_up_audit categories id) (Object_keys categories) false)
          (fun validAudit =>
             if negb validAudit
             then Throw (Error ("Audit <" ++ id ++ "> is unknown"))
             else Ok tt) = Throw (Error ("Audit <" ++ id ++ "> is unknown"))
        /\ ~ listed categories id)).
  { intros id. destruct (validateAudits_step categories id) as (b & Hb & Hiff).
    rewrite Hb. simpl. destruct b; simpl.
    - left. split; [reflexivity | now apply Hiff].
    - right. split; [reflexivity |]. intros H. apply Hiff in H. discriminate H. }
  assert (Hok : validateAudits categories options = Ok tt <->
                forall only id,
                  onlyAudits options = Some only -> In id only ->
                  listed categories id).
  { unfold validateAudits. destruct (onlyAudits options) as [only |].
    - rewrite forEach_Ok. split.
      + intros H only' id [= <-] Hid. specialize (H id Hid). cbv zeta in H.
        destruct (Hstep id) as [[_ Hl] | [E _]]; [exact Hl | congruence].
      + intros H id Hid. cbv zeta.
        destruct (Hstep id) as [[E _] | [_ Hn]]; [exact E |].
        contradiction Hn. exact (H only id eq_refl Hid).
    - split; [intros _ only id H; discriminate H | reflexivity]. }
  assert (Hthrow : forall e,
             validateAudits categories options = Throw e ->
             exists only id,
               onlyAudits options = Some only /\ In id only
               /\ ~ listed categories id
               /\ e = Error ("Audit <" ++ id ++ "> is unknown")).
  { unfold validateAudits. destruct (onlyAudits options) as [only |].
    - intros e H. apply forEach_Throw in H. destruct H as (id & Hid & E).
      cbv zeta in E. exists only, id.
      destruct (Hstep id) as [[E' _] | [E' Hn]]; [congruence |].
      rewrite E' in E. injection E as <-. auto.
    - intros e H. discriminate H. }
  split; [exact Hok | split; [exact Hthrow |]].
  intros (only & id & Honly & Hid & Hn).
  destruct (validateAudits categories options) as [[] | e] eqn:E.
  - contradiction Hn. apply (proj1 Hok eq_refl only id Honly Hid).
  - destruct (Hthrow e eq_refl) as (only' & id' & _ & _ & Hn' & ->).
    exists id'. auto.
Qed.

Lemma validateAudits_spec_witness :
  validateAudits [("perf", abc)] (with_onlyAudits ["a"; "b"]) = Ok tt
  /\ exists id,
       ~ listed [("perf", abc)] id
       /\ validateAudits [("perf", abc)] (with_onlyAudits ["a"; "z"])
          = Throw (Error ("Audit <" ++ id ++ "> is unknown")).
Proof.
  split.
  - destruct (validateAudits_spec [("perf", abc)] (with_onlyAudits ["a"; "b"]))
      as ([_ H] & _).
    apply H. intros only id [= <-] Hid. exists "perf", abc, {| ref_id := id |}.
    split; [reflexivity |]. split; [| reflexivity].
    simpl in Hid. simpl. destruct Hid as [<- | [<- | []]]; auto.
  - destruct (validateAudits_spec [("perf", abc)] (with_onlyAudits ["a"; "z"]))
      as (_ & _ & H).
    apply H. exists ["a"; "z"], "z". split; [reflexivity |].
    split; [simpl; auto |].
    intros (k & c & r & Hc & Hr & E). simpl in Hc.
    destruct (String.eqb k "perf"); [| discriminate Hc].
    injection Hc as <-. simpl in Hr.
    destruct Hr as [<- | [<- | [<- | []]]]; discriminate E.
Defined.

(** ** The pattern [/(.+):(.+)/] *)

Lemma mem_char_drop (c : ascii) (n : nat) (s : string) :
  mem_char c (drop n s) = true -> mem_char c s = true.
Proof.
  revert s. induction n as [| n IH]; intros s; simpl.
  - destruct s; auto.
  - destruct s as [| c' s]; simpl; [auto |].
    intros H. rewrite (IH _ H). apply orb_true_r.
Qed.

Lemma colon_group_colon (s g : string) :
  colon_group s = Some g -> mem_char ":" s = true.
Proof.
  destruct s as [| c s]; simpl; [discriminate |].
  destruct (Ascii.eqb_spec ":" c) as [<- | Hne]; [reflexivity |].
  destruct c as [[] [] [] [] [] [] [] []]; try discriminate; congruence.
Qed.

Lemma backtrack_colon (n : nat) (s : string) (r : string * string) :
  backtrack n s = Some r -> mem_char ":" s = true.
Proof.
  induction n as [| n IH]; cbn [backtrack]; [discriminate |].
  destruct (colon_group (drop (S n) s)) as [g |] eqn:E; [| exact IH].
  intros _. apply colon_group_colon in E. now apply mem_char_drop in E.
Qed.

(** The pattern matches only text that holds a colon. *)
Lemma match_pair_colon (s : string) (r : string * string) :
  match_pair s = Some r -> mem_char ":" s = true.
Proof.
  induction s as [| c s IH].
  - simpl. discriminate.
  - cbn [match_pair].
    destruct (match_here (String c s)) as [r' |] eqn:E.
    + intros _. exact (backtrack_colon _ _ _ E).
    + intros H. simpl. rewrite (IH H). apply orb_true_r.
Qed.

(** ** Options builder: malformed score tokens *)

Lemma add_score_no_colon (minimums : obj number) (token : string) :
  mem_char ":" token = false -> add_score minimums token = Throw TypeError.
Proof.
  intros H. unfold add_score.
  destruct (match_pair token) as [[k x] |] eqn:E; [| reflexivity].
  apply match_pair_colon in E. congruence.
Qed.

Lemma add_score_throws (minimums : obj number) (token : string) (e : error) :
  add_score minimums token = Throw e -> e = TypeError.
Proof.
  unfold add_score. destruct (match_pair token) as [[k x] |]; [discriminate |].
  now intros [= <-].
Qed.

Lemma add_score_loop_no_colon (tokens : list string) (token : string)
    (minimums : obj number) :
  In token tokens -> mem_char ":" token = false ->
  forEach_with add_score tokens minimums = Throw TypeError.
Proof.
  revert minimums. induction tokens as [| t tokens IH]; intros m Hin Hno.
  - destruct Hin.
  - simpl. destruct (add_score m t) as [m' | e] eqn:E; simpl.
    + destruct Hin as [-> | Hin].
      * rewrite (add_score_no_colon _ _ Hno) in E. discriminate E.
      * now apply IH.
    + now rewrite (add_score_throws _ _ _ E).
Qed.

(** C9: in the flags path, a [--scores] token without a colon makes the
    options builder throw a [TypeError] (the failed match is dereferenced);
    no options, hence no scores mapping, are returned. *)
Theorem malformed_score_token_throws (readConfig : value -> result Options)
    (argv : Argv) (s token : string) :
  truthy (argv_config argv) = false ->
  argv_scores argv = VString s ->
  s <> "" ->
  In token (split "," s) ->
  mem_char ":" token = false ->
  add_score [] token = Throw TypeError
  /\ getConfig readConfig argv = Throw TypeError
  /\ prepareOptions readConfig argv = Throw TypeError.
Proof.
  intros Hconfig Hscores Hne Hin Hno.
  split; [now apply add_score_no_colon |].
  assert (H : getConfig readConfig argv = Throw TypeError).
  { unfold getConfig. rewrite Hconfig, Hscores.
    assert (Ht : truthy (VString s) = true).
    { simpl. destruct (String.eqb_spec s ""); [contradiction | reflexivity]. }
    rewrite Ht.
    destruct (truthy (argv_audits argv)); [destruct (argv_audits argv) |];
      simpl; try reflexivity;
      now rewrite (add_score_loop_no_colon _ _ _ Hin Hno). }
  split; [exact H |]. unfold prepareOptions. now rewrite H.
Qed.

Lemma malformed_score_token_throws_witness :
  prepareOptions no_config_file (scores_flag "seo:50,perf90") = Throw TypeError.
Proof.
  apply (malformed_score_token_throws no_config_file
           (scores_flag "seo:50,perf90") "seo:50,perf90" "perf90").
  - reflexivity.
  - reflexivity.
  - discriminate.
  - simpl. right. left. reflexivity.
  - reflexivity.
Defined.

(** ** Options builder: where a score token is split *)

Lemma take_app (a b : string) : take (String.length a) (a ++ b) = a.
Proof. induction a as [| c a IH]; simpl; [now destruct b | now rewrite IH]. Qed.

Lemma drop_app (a b : string) : drop (String.length a) (a ++ b) = b.
Proof. induction a as [| c a IH]; simpl; [now destruct b | exact IH]. Qed.

Lemma take_all (s : string) : take (String.length s) s = s.
Proof. induction s as [| c s IH]; simpl; [reflexivity | now rewrite IH]. Qed.

Lemma drop_drop (n m : nat) (s : string) : drop n (drop m s) = drop (m + n) s.
Proof.
  revert s. induction m as [| m IH]; intros s; simpl.
  - now destruct s.
  - destruct s as [| c s]; simpl; [now destruct n | apply IH].
Qed.

Lemma no_line_terminator_app (a b : string) :
  no_line_terminator (a ++ b) = no_line_terminator a && no_line_terminator b.
Proof.
  induction a as [| c a IH]; simpl; [reflexivity |].
  now rewrite IH, andb_assoc.
Qed.

(** Without line terminators, [.+] can take the whole text. *)
Lemma dot_run_all (s : string) :
  no_line_terminator s = true -> dot_run s = String.length s.
Proof.
  induction s as [| c s IH]; simpl; [reflexivity |].
  intros H. apply andb_true_iff in H. destruct H as [Hc Hs].
  now rewrite Hc, IH.
Qed.

(** No suffix of a text whose only colon, if any, is its last character can
    continue the match after group 1. *)
Lemma colon_group_suffix (body : string) (c : ascii) (j : nat) :
  mem_char ":" body = false ->
  colon_group (drop j (body ++ String c "")) = None.
Proof.
  revert j. induction body as [| b body IH]; intros j H.
  - destruct j as [| j]; simpl.
    + destruct c as [[] [] [] [] [] [] [] []]; reflexivity.
    + destruct j; reflexivity.
  - simpl in H. apply orb_false_iff in H. destruct H as [Hb Hbody].
    destruct j as [| j]; simpl.
    + destruct (Ascii.eqb_spec ":" b) as [<- | Hne]; [discriminate Hb |].
      destruct b as [[] [] [] [] [] [] [] []]; try reflexivity. congruence.
    + now apply IH.
Qed.

(** Group 1 gives code units back until it ends right before the colon. *)
Lemma backtrack_down (s : string) (k : nat) (g2 : string) (n : nat) :
  (0 < k)%nat -> (k <= n)%nat ->
  colon_group (drop k s) = Some g2 ->
  (forall m, (k < m)%nat -> (m <= n)%nat -> colon_group (drop m s) = None) ->
  backtrack n s = Some (take k s, g2).
Proof.
  intros Hk. induction n as [| n IH]; intros Hle Hat Habove.
  - lia.
  - cbn [backtrack]. destruct (Nat.eq_dec k (S n)) as [<- | Hne].
    + now rewrite Hat.
    + rewrite (Habove (S n)) by lia. apply IH; [lia | exact Hat |].
      intros m H1 H2. apply Habove; lia.
Qed.

(** The pattern splits a token at its last colon that has something after
    it. *)
Lemma match_pair_last_colon (token key text : string) :
  last_colon_split token key text -> match_pair token = Some (key, text).
Proof.
  intros (-> & Hkey & Hnl & body & c & Htext & Hbody).
  assert (Hhere : match_here (key ++ ":" ++ text) = Some (key, text)).
  { unfold match_here. rewrite (dot_run_all _ Hnl).
    rewrite no_line_terminator_app in Hnl. apply andb_true_iff in Hnl.
    destruct Hnl as [_ Hnl]. simpl in Hnl.
    replace (Some (key, text))
      with (Some (take (String.length key) (key ++ ":" ++ text), text))
      by now rewrite take_app.
    apply backtrack_down.
    - destruct key; [contradiction Hkey; reflexivity | simpl; lia].
    - clear. induction key; simpl in *; lia.
    - rewrite drop_app. simpl.
      destruct text as [| c0 t0]; [destruct body; discriminate Htext |].
      simpl in Hnl. apply andb_true_iff in Hnl. destruct Hnl as [Hc0 Ht0].
      rewrite Hc0, (dot_run_all _ Ht0), take_all. reflexivity.
    - intros m H1 _.
      replace m with (String.length key + S (m - String.length key - 1))%nat by lia.
      rewrite <- drop_drop, drop_app. simpl. rewrite Htext.
      now apply colon_group_suffix. }
  destruct (key ++ ":" ++ text) as [| c0 s0] eqn:E.
  - destruct key; discriminate E.
  - cbn [match_pair]. now rewrite Hhere.
Qed.

Lemma get_own_define_same {V} (k : string) (v : V) (o : obj V) :
  get_own k (define_own k v o) = Some v.
Proof.
  induction o as [| [k' v'] o IH]; simpl.
  - now rewrite String.eqb_refl.
  - destruct (String.eqb_spec k k') as [-> | Hne]; simpl.
    + now rewrite String.eqb_refl.
    + apply String.eqb_neq in Hne. now rewrite Hne.
Qed.

Lemma get_own_define_other {V} (k k' : string) (v : V) (o : obj V) :
  k <> k' -> get_own k (define_own k' v o) = get_own k o.
Proof.
  intros Hne. induction o as [| [k'' v''] o IH]; simpl.
  - apply String.eqb_neq in Hne. now rewrite Hne.
  - destruct (String.eqb_spec k' k'') as [<- | Hne']; simpl.
    + apply String.eqb_neq in Hne. now rewrite Hne.
    + destruct (String.eqb k k''); [reflexivity | exact IH].
Qed.

Lemma get_own_set_same {V} (k : string) (v : V) (o : obj V) :
  k <> "__proto__" -> get_own k (set k v o) = Some v.
Proof.
  intros Hne. unfold set. apply String.eqb_neq in Hne. rewrite Hne.
  apply get_own_define_same.
Qed.

Lemma get_own_set_other {V} (k k' : string) (v : V) (o : obj V) :
  k <> k' -> get_own k (set k' v o) = get_own k o.
Proof.
  intros Hne. unfold set. destruct (String.eqb k' "__proto__"); [reflexivity |].
  now apply get_own_define_other.
Qed.

(** Tokens that bind other keys leave the binding of [key] alone. *)
Lemma add_score_loop_keeps (tokens : list string) (minimums : obj number)
    (key : string) (x : option number) :
  (forall t, In t tokens ->
     exists k text, match_pair t = Some (k, text) /\ k <> key) ->
  get_own key minimums = x ->
  exists minimums',
    forEach_with add_score tokens minimums = Ok minimums'
    /\ get_own key minimums' = x.
Proof.
  revert minimums. induction tokens as [| t tokens IH]; intros m Hall Hm.
  - exists m. now split.
  - destruct (Hall t (or_introl eq_refl)) as (k & text & Et & Hne).
    simpl. unfold add_score at 1. rewrite Et. simpl. apply IH.
    + intros t' Ht'. apply Hall. now right.
    + rewrite get_own_set_other by congruence. exact Hm.
Qed.

(** The last token that binds [key] decides its minimum score. *)
Lemma add_score_loop_last (pre post : list string) (token key text : string)
    (minimums : obj number) :
  (forall t, In t pre -> match_pair t <> None) ->
  match_pair token = Some (key, text) ->
  key <> "__proto__" ->
  (forall t, In t post ->
     exists k text', match_pair t = Some (k, text') /\ k <> key) ->
  exists minimums',
    forEach_with add_score (pre ++ token :: post) minimums = Ok minimums'
    /\ get_own key minimums' = Some (mul (StringToNumber text) (of_Z 1)).
Proof.
  revert minimums. induction pre as [| t pre IH]; intros m Hpre Htoken Hkey Hpost.
  - simpl. unfold add_score at 1. rewrite Htoken. simpl.
    apply add_score_loop_keeps; [exact Hpost |].
    now apply get_own_set_same.
  - simpl. unfold add_score at 1.
    destruct (match_pair t) as [[k x] |] eqn:Et.
    + simpl. apply IH; auto. intros t' Ht'. apply Hpre. now right.
    + contradiction (Hpre t (or_introl eq_refl)).
Qed.

Lemma add_score_loop_total (tokens : list string) (minimums : obj number) :
  (forall t, In t tokens -> match_pair t <> None) ->
  exists minimums', forEach_with add_score tokens minimums = Ok minimums'.
Proof.
  revert minimums. induction tokens as [| t tokens IH]; intros m Hall.
  - now exists m.
  - simpl. unfold add_score at 1.
    destruct (match_pair t) as [[k x] |] eqn:Et.
    + simpl. apply IH. intros t' Ht'. apply Hall. now right.
    + contradiction (Hall t (or_introl eq_refl)).
Qed.

(** C2, as stated, fails: the token [a:b:90] is not split at its first
    colon.  The key [a] is not bound at all; the key is [a:b] and its
    minimum score is 90. *)
Lemma first_colon_reading_fails :
  ~ first_colon_reading "a:b:90"
  /\ (exists options,
         getConfig no_config_file (scores_flag "a:b:90") = Ok options
         /\ scores options = Some [("a:b", of_Z 90)]).
Proof.
  split.
  - intros H. destruct (H "a" "b:90" eq_refl) as (options & m & E1 & E2 & E3).
    vm_compute in E1. injection E1 as <-. simpl in E2. injection E2 as <-.
    vm_compute in E3. discriminate E3.
  - eexists. split; [vm_compute; reflexivity | reflexivity].
Qed.

(** C2, amended: in the flags path, when every comma-separated [--scores]
    token holds no line terminator (line feed or carriage return) and has
    the form [key:text] with the colon being the last colon of the token
    that has something after it, the scores mapping is built, and it maps
    [key] to the number [text * 1] for the last token with that key (the
    key [__proto__] apart, which is never bound).  A token without line
    terminators and with a single colon is thus split at it; [a:b:90] binds
    [a:b] to 90.  Tokens that hold a line terminator are outside this
    statement: [.] does not match across one. *)
Theorem scores_split_at_last_colon (readConfig : value -> result Options)
    (argv : Argv) (s : string) :
  truthy (argv_config argv) = false ->
  (truthy (argv_audits argv) = false \/ exists a, argv_audits argv = VString a) ->
  argv_scores argv = VString s ->
  s <> "" ->
  (forall t, In t (split "," s) -> exists k x, last_colon_split t k x) ->
  exists options minimums,
    getConfig readConfig argv = Ok options
    /\ scores options = Some minimums
    /\ forall pre token post key text,
         split "," s = (pre ++ token :: post)%list ->
         last_colon_split token key text ->
         key <> "__proto__" ->
         (forall t k x, In t post -> last_colon_split t k x -> k <> key) ->
         match_pair token = Some (key, text)
         /\ get_own key minimums = Some (mul (StringToNumber text) (of_Z 1)).
Proof.
  intros Hconfig Haudits Hscores Hne Hall.
  assert (Hmatch : forall t, In t (split "," s) -> match_pair t <> None).
  { intros t Ht. destruct (Hall t Ht) as (k & x & H).
    rewrite (match_pair_last_colon _ _ _ H). discriminate. }
  destruct (add_score_loop_total (split "," s) [] Hmatch) as [m Hm].
  assert (Ht : truthy (VString s) = true).
  { simpl. destruct (String.eqb_spec s ""); [contradiction | reflexivity]. }
  assert (Hget : exists options,
             getConfig readConfig argv = Ok options /\ scores options = Some m).
  { unfold getConfig. rewrite Hconfig, Hscores, Ht.
    destruct Haudits as [Hf | [a Ha]].
    - rewrite Hf. simpl. rewrite Hm. simpl.
      destruct (truthy (argv_showaudits argv)); eexists; split; reflexivity.
    - rewrite Ha. destruct (truthy (VString a)); simpl; rewrite Hm; simpl;
        destruct (truthy (argv_showaudits argv)); eexists; split; reflexivity. }
  destruct Hget as (options & Hoptions & Hsc).
  exists options, m. split; [exact Hoptions | split; [exact Hsc |]].
  intros pre token post key text Hsplit Htoken Hkey Hlater.
  pose proof (match_pair_last_colon _ _ _ Htoken) as Etoken.
  split; [exact Etoken |].
  destruct (add_score_loop_last pre post token key text []) as (m' & Hm' & Hk).
  - intros t Hin. apply Hmatch. rewrite Hsplit. apply in_or_app. now left.
  - exact Etoken.
  - exact Hkey.
  - intros t Hin.
    assert (Hin' : In t (split "," s))
      by (rewrite Hsplit; apply in_or_app; right; now right).
    destruct (Hall t Hin') as (k & x & H). exists k, x.
    split; [now apply match_pair_last_colon | now apply (Hlater t k x)].
  - rewrite <- Hsplit, Hm in Hm'. injection Hm' as <-. exact Hk.
Qed.

Lemma scores_split_at_last_colon_witness :
  exists options minimums,
    getConfig no_config_file (scores_flag "a:b:90,seo:50") = Ok options
    /\ scores options = Some minimums
    /\ match_pair "a:b:90" = Some ("a:b", "90")
    /\ get_own "a:b" minimums = Some (mul (StringToNumber "90") (of_Z 1)).
Proof.
  destruct (scores_split_at_last_colon no_config_file
              (scores_flag "a:b:90,seo:50") "a:b:90,seo:50")
    as (options & minimums & Hoptions & Hsc & H).
  - reflexivity.
  - left. reflexivity.
  - reflexivity.
  - discriminate.
  - intros t [<- | [<- | []]].
    + exists "a:b", "90". repeat split; try discriminate.
      exists "9", "0"%char. split; reflexivity.
    + exists "seo", "50". repeat split; try discriminate.
      exists "5", "0"%char. split; reflexivity.
  - exists options, minimums. split; [exact Hoptions | split; [exact Hsc |]].
    apply (H [] "a:b:90" ["seo:50"]).
    + reflexivity.
    + repeat split; try discriminate.
      exists "9", "0"%char. split; reflexivity.
    + discriminate.
    + intros t k x [<- | []] (E & _ & _ & body & c & -> & Hbody).
      intros ->. simpl in E. discriminate E.
Defined.

(** Why the tokens above hold no line terminator: the pattern matches
    within one line of the token, so [x<LF>m:9] binds [m], and
    [a:b<LF>:c] is split at its first colon. *)
Example match_pair_within_one_line :
  match_pair ("x" ++ String LF "m:9") = Some ("m", "9")
  /\ match_pair ("a:b" ++ String LF ":c") = Some ("a", "b").
Proof. split; reflexivity. Qed.

(** ** Scan: the [showAudits] mode *)

Lemma io_bind_emit {B} (o : output) (k : unit -> IO B) :
  io_bind (emit o) k = (o :: fst (k tt), snd (k tt)).
Proof. unfold io_bind, emit. destruct (k tt). reflexivity. Qed.

(** A loop whose callback always returns normally returns normally. *)
Lemma forEach_io_returns {A} (f : unit -> A -> IO unit) (l : list A) :
  (forall x, In x l -> exists out, f tt x = (out, Ok tt)) ->
  exists out, forEach_io f l tt = (out, Ok tt).
Proof.
  induction l as [| x l IH]; intros Hf; simpl.
  - now exists [].
  - destruct (Hf x (or_introl eq_refl)) as [out1 E1].
    destruct IH as [out2 E2]; [intros y Hy; apply Hf; now right |].
    exists (out1 ++ out2)%list. unfold io_bind. now rewrite E1, E2.
Qed.

Lemma show_audits_returns (results : Report) :
  refs_resolve results -> exists out, show_audits results = (out, Ok false).
Proof.
  intros Hres. unfold show_audits.
  destruct (forEach_io_returns (describe_category results)
              (Object_keys (categories results))) as [out E].
  - intros k Hk. apply Object_keys_own in Hk. destruct Hk as [c Hc].
    unfold describe_category. rewrite (proj2 (get_Own _ _ _) Hc).
    destruct (forEach_io_returns (describe_audit results) (auditRefs c))
      as [out E].
    + intros r Hr. specialize (Hres k c r Hc Hr). unfold describe_audit.
      destruct (get (audits results) (ref_id r)) as [a | name |];
        [| | contradiction Hres; reflexivity]; simpl; eexists; reflexivity.
    + unfold headline. rewrite io_bind_emit, E. eexists. reflexivity.
  - unfold io_bind. rewrite E. eexists. reflexivity.
Qed.

(** C8: with [options.showAudits] set, [scan] returns "no failure" for
    every report whose audit references resolve.  Its outcome is that of
    printing the descriptions and does not depend on the other options:
    neither validator runs and nothing is evaluated, so unknown category or
    audit ids in the options raise no error. *)
Theorem scan_showAudits_no_failure (run : value -> result Report)
    (url : value) (results : Report) (options : Options) :
  run url = Ok results ->
  flag (showAudits options) = true ->
  refs_resolve results ->
  scan run url options = show_audits results
  /\ exists out, scan run url options = (out, Ok false).
Proof.
  intros Hrun Hshow Hres.
  assert (E : scan run url options = show_audits results).
  { unfold scan. rewrite Hrun, Hshow. unfold io_bind, lift.
    destruct (show_audits results). reflexivity. }
  split; [exact E |]. rewrite E. now apply show_audits_returns.
Qed.

Lemma scan_showAudits_no_failure_witness :
  (exists e, validateCategories (categories example_report) show_with_unknown_ids
             = Throw e)
  /\ (exists e, validateAudits (categories example_report) show_with_unknown_ids
                = Throw e)
  /\ exists out,
       scan (fun _ => Ok example_report) (VString "https://example.com")
            show_with_unknown_ids = (out, Ok false).
Proof.
  split; [eexists; reflexivity | split; [eexists; reflexivity |]].
  apply (scan_showAudits_no_failure (fun _ => Ok example_report)
           (VString "https://example.com") example_report show_with_unknown_ids).
  - reflexivity.
  - reflexivity.
  - intros k c r Hc Hr. simpl in Hc.
    destruct (String.eqb k "perf"); [| discriminate Hc].
    injection Hc as <-. simpl in Hr.
    destruct Hr as [<- | [<- | [<- | []]]]; discriminate.
Defined.

(** ** Numbers: comparisons and products that are not NaN *)

Lemma compare_defined (a b : number) :
  is_nan a = false -> is_nan b = false -> exists c, SFcompare a b = Some c.
Proof.
  destruct a, b; simpl; try discriminate; intros _ _; eexists; reflexivity.
Qed.

(** Between two numbers, "not at least" is "strictly below". *)
Lemma ge_false_lt (a b : number) :
  is_nan a = false -> is_nan b = false -> (ge a b = false <-> lt a b = true).
Proof.
  intros Ha Hb. destruct (compare_defined a b Ha Hb) as [c E].
  unfold ge, lt, SFltb. rewrite E.
  destruct c; split; intros H; reflexivity || discriminate H.
Qed.

Lemma truthy_number_not_nan (x : number) :
  truthy_number x = true -> is_nan x = false.
Proof. destruct x; simpl; congruence. Qed.

Lemma shr_1_nonneg (r : shr_record) : 0 <= shr_m r -> 0 <= shr_m (shr_1 r).
Proof.
  destruct r as [m r s]. simpl.
  destruct m as [| p | p]; [| destruct p | destruct p]; simpl; lia.
Qed.

Lemma iter_shr_1_nonneg (p : positive) (r : shr_record) :
  0 <= shr_m r -> 0 <= shr_m (iter_pos shr_1 p r).
Proof.
  revert r. induction p as [p IH | p IH |]; intros r H; simpl.
  - apply IH, IH, shr_1_nonneg, H.
  - apply IH, IH, H.
  - apply shr_1_nonneg, H.
Qed.

Lemma shr_fexp_nonneg (m e : Z) (l : location) :
  0 <= m -> 0 <= shr_m (fst (shr_fexp prec emax m e l)).
Proof.
  intros H. unfold shr_fexp, shr.
  assert (H0 : 0 <= shr_m (shr_record_of_loc m l))
    by (destruct l as [| []]; exact H).
  destruct (fexp prec emax (Zdigits2 m + e) - e); simpl; auto.
  now apply iter_shr_1_nonneg.
Qed.

Lemma round_nearest_even_nonneg (m : Z) (l : location) :
  0 <= m -> 0 <= round_nearest_even m l.
Proof.
  intros H. unfold round_nearest_even.
  destruct l as [| []]; try destruct (Z.even m); lia.
Qed.

(** Rounding a non-negative mantissa never yields NaN. *)
Lemma binary_round_aux_not_nan (s : bool) (m e : Z) (l : location) :
  0 <= m -> is_nan (binary_round_aux prec emax s m e l) = false.
Proof.
  intros H. unfold binary_round_aux.
  pose proof (shr_fexp_nonneg m e l H) as H1.
  destruct (shr_fexp prec emax m e l) as [mrs' e']. simpl in H1.
  pose proof (shr_fexp_nonneg _ e' loc_Exact
                (round_nearest_even_nonneg _ (loc_of_shr_record mrs') H1)) as H2.
  destruct (shr_fexp prec emax _ e' loc_Exact) as [mrs'' e'']. simpl in H2.
  destruct (shr_m mrs'') as [| p | p]; [reflexivity | | lia].
  destruct (e'' <=? emax - prec); reflexivity.
Qed.

Lemma of_Z_100 : of_Z 100 = S754_finite false 7036874417766400 (-46).
Proof. reflexivity. Qed.

Lemma mul_100_not_nan (x : number) :
  is_nan x = false -> is_nan (mul x (of_Z 100)) = false.
Proof.
  intros H. rewrite of_Z_100. unfold mul.
  destruct x as [s | s | | s m e]; try reflexivity; [discriminate H |].
  cbn [SFmul]. apply binary_round_aux_not_nan. lia.
Qed.

Lemma numeric_score_not_nan (v : value) :
  numeric_score v -> is_nan (mul (ToNumber v) (of_Z 100)) = false.
Proof.
  intros [-> | (x & -> & Hx)]; [reflexivity | now apply mul_100_not_nan].
Qed.

(** ** Scan: the scores section *)

Lemma io_bind_ret {A B} (a : A) (k : A -> IO B) : io_bind (ret a) k = k a.
Proof. unfold io_bind, ret. destruct (k a). reflexivity. Qed.

(** The loop over the keys of [options.scores]: it prints nothing, appends
    one row per key with a truthy minimum, and raises the flag exactly when
    one of these categories scores below its minimum. *)
Lemma check_category_loop (results : Report) (scores : obj number)
    (ks : list string) (rows0 : list ScoreRow) (f0 : bool) :
  (forall k, In k ks ->
     exists minimum c,
       get_own k scores = Some minimum
       /\ get_own k (categories results) = Some c
       /\ (truthy_number minimum = true -> numeric_score (cat_score c))) ->
  exists rows f,
    forEach_io (check_category results scores) ks (rows0, f0)
      = ([], Ok ((rows0 ++ rows)%list, f))
    /\ Forall2 (row_of results scores) rows (filter (truthy_minimum scores) ks)
    /\ (f = true <->
        f0 = true
        \/ exists k minimum c,
             In k ks /\ get_own k scores = Some minimum
             /\ truthy_number minimum = true
             /\ get_own k (categories results) = Some c
             /\ lt (mul (ToNumber (cat_score c)) (of_Z 100)) minimum = true).
Proof.
  revert rows0 f0. induction ks as [| k ks IH]; intros rows0 f0 Hks.
  - exists [], f0. simpl. rewrite app_nil_r. split; [reflexivity |].
    split; [constructor |]. split; [auto |].
    intros [H | (k & m & c & [] & _)]. exact H.
  - destruct (Hks k (or_introl eq_refl)) as (m & c & Hm & Hc & Hnum).
    assert (Hrest : forall k', In k' ks ->
              exists minimum c',
                get_own k' scores = Some minimum
                /\ get_own k' (categories results) = Some c'
                /\ (truthy_number minimum = true -> numeric_score (cat_score c')))
      by (intros k' Hk'; apply Hks; now right).
    cbn [forEach_io filter]. unfold check_category at 1, truthy_minimum at 1.
    rewrite (proj2 (get_Own _ _ _) Hc), (proj2 (get_Own _ _ _) Hm), Hm.
    cbn [minScore_of truthy score_of title_of ToNumber].
    destruct (truthy_number m) eqn:Htruthy.
    + rewrite io_bind_ret.
      set (product := mul (ToNumber (cat_score c)) (of_Z 100)).
      assert (Hlt : ge product m = false <-> lt product m = true).
      { apply ge_false_lt.
        - apply numeric_score_not_nan, Hnum. reflexivity.
        - now apply truthy_number_not_nan. }
      set (row := {| row_result := if negb (ge product m) then cross else tick;
                     row_category := VString (cat_title c);
                     row_minScore := VNumber m; row_score := product |}).
      destruct (IH (rows0 ++ [row])%list
                   (if negb (ge product m) then true else f0) Hrest)
        as (rows & f & E & Hrows & Hf).
      exists (row :: rows), f. split; [| split].
      * rewrite E, <- app_assoc. reflexivity.
      * constructor; [| exact Hrows].
        exists m, c. repeat split; try assumption. simpl.
        destruct (ge product m) eqn:Ege; simpl.
        -- destruct (lt product m) eqn:Elt; [| reflexivity].
           destruct Hlt as [_ Hlt]. discriminate (Hlt eq_refl).
        -- destruct Hlt as [Hlt _]. now rewrite (Hlt eq_refl).
      * rewrite Hf. split.
        -- intros [H | (k' & m' & c' & Hk' & H)].
           ++ destruct (ge product m) eqn:Ege; simpl in H; [now left |].
              right. exists k, m, c. repeat split; try assumption.
              ** now left.
              ** now apply (proj1 Hlt).
           ++ right. exists k', m', c'. split; [now right | exact H].
        -- intros [H | (k' & m' & c' & [<- | Hk'] & Hm' & Ht' & Hc' & Hlt')].
           ++ left. rewrite H. now destruct (negb (ge product m)).
           ++ left. rewrite Hm in Hm'. injection Hm' as <-.
              rewrite Hc in Hc'. injection Hc' as <-.
              apply (proj2 Hlt) in Hlt'. now rewrite Hlt'.
           ++ right. exists k', m', c'. auto.
    + rewrite io_bind_ret.
      destruct (IH rows0 f0 Hrest) as (rows & f & E & Hrows & Hf).
      exists rows, f. split; [exact E | split; [exact Hrows |]].
      rewrite Hf. split.
      * intros [H | (k' & m' & c' & Hk' & H)]; [now left |].
        right. exists k', m', c'. split; [now right | exact H].
      * intros [H | (k' & m' & c' & [<- | Hk'] & Hm' & Ht' & H)]; [now left | |].
        -- rewrite Hm in Hm'. injection Hm' as <-. congruence.
        -- right. exists k', m', c'. auto.
Qed.

(** C3: in the scores section of [scan], taken over categories that exist
    and are scored by the engine with a number or [null]: the table has one
    row per category whose configured minimum is truthy, in key order, and
    none for a category whose minimum is falsy (0 in particular); the
    failure flag is set exactly when some category with a truthy minimum has
    [category.score * 100] strictly below that minimum, whatever the scores
    of the categories with a falsy minimum. *)
Theorem scores_section_spec (results : Report) (scores : obj number) :
  (forall k, In k (Object_keys scores) ->
     exists c, get_own k (categories results) = Some c) ->
  (forall k minimum c,
     get_own k scores = Some minimum -> truthy_number minimum = true ->
     get_own k (categories results) = Some c -> numeric_score (cat_score c)) ->
  exists rows fail,
    check_categories results scores false
      = ([Headline "scores"; Linebreak; Log (ScoreTable rows)], Ok fail)
    /\ Forall2 (row_of results scores) rows (scored_keys scores)
    /\ (forall k minimum,
          get_own k scores = Some minimum -> truthy_number minimum = false ->
          ~ In k (scored_keys scores))
    /\ (fail = true <->
        exists k minimum c,
          get_own k scores = Some minimum
          /\ truthy_number minimum = true
          /\ get_own k (categories results) = Some c
          /\ lt (mul (ToNumber (cat_score c)) (of_Z 100)) minimum = true).
Proof.
  intros Hexist Hnum.
  destruct (check_category_loop results scores (Object_keys scores) [] false)
    as (rows & fail & E & Hrows & Hfail).
  { intros k Hk. destruct (Hexist k Hk) as [c Hc].
    destruct (proj1 (Object_keys_own _ _) Hk) as [m Hm].
    exists m, c. split; [exact Hm | split; [exact Hc |]].
    intros Ht. exact (Hnum k m c Hm Ht Hc). }
  exists rows, fail. split; [| split; [exact Hrows | split]].
  - unfold check_categories, headline, linebreak, log.
    rewrite io_bind_emit, E. reflexivity.
  - intros k m Hm Ht Hin. unfold scored_keys in Hin.
    apply filter_In in Hin. destruct Hin as [_ Hin].
    unfold truthy_minimum in Hin. rewrite Hm in Hin. congruence.
  - rewrite Hfail. split.
    + intros [H | (k & m & c & _ & H)]; [discriminate H |]. now exists k, m, c.
    + intros (k & m & c & Hm & H). right. exists k, m, c.
      split; [| split; [exact Hm | exact H]].
      apply Object_keys_own. now exists m.
Qed.

Lemma scores_section_spec_witness :
  truthy_number (of_Z 0) = false
  /\ exists rows fail,
       check_categories
         (perf_seo (VNumber (StringToNumber "0.5")) (VNumber (StringToNumber "0.1")))
         perf_90_seo_0 false
       = ([Headline "scores"; Linebreak; Log (ScoreTable rows)], Ok fail)
       /\ List.length rows = 1%nat
       /\ fail = true.
Proof.
  split; [reflexivity |].
  destruct (scores_section_spec
              (perf_seo (VNumber (StringToNumber "0.5")) (VNumber (StringToNumber "0.1")))
              perf_90_seo_0)
    as (rows & fail & E & Hrows & _ & Hfail).
  - intros k [<- | [<- | []]]; eexists; reflexivity.
  - intros k minimum c Hm _ Hc. simpl in Hm, Hc.
    destruct (String.eqb k "perf").
    + injection Hc as <-. right. eexists. split; reflexivity.
    + destruct (String.eqb k "seo"); [| discriminate Hm].
      injection Hc as <-. right. eexists. split; reflexivity.
  - exists rows, fail. split; [exact E | split].
    + apply Forall2_length in Hrows. exact Hrows.
    + apply Hfail. exists "perf". eexists. eexists.
      repeat split; reflexivity.
Defined.

(** Outside the [showAudits] mode and once both validators have returned,
    [scan] is the scores section followed by the audits section. *)
Lemma scan_sections (run : value -> result Report) (url : value)
    (results : Report) (options : Options) (minimums : obj number) :
  run url = Ok results ->
  flag (showAudits options) = false ->
  validateCategories (categories results) options = Ok tt ->
  validateAudits (categories results) options = Ok tt ->
  scores options = Some minimums ->
  scan run url options
  = io_bind (check_categories results minimums false)
            (check_audits results options).
Proof.
  intros Hrun Hshow Hcat Haud Hsc. unfold scan.
  rewrite Hrun, Hshow. change (lift (Ok results)) with (ret results).
  rewrite io_bind_ret, Hcat, Haud, Hsc.
  change (lift (Ok tt)) with (ret tt). now rewrite !io_bind_ret.
Qed.

(** ** End to end *)

(** With [options.scores = {perf: 90}], a report whose category [perf]
    scores 0.95 yields no failure, and one that scores 0.50 yields a
    failure. *)
Example main_perf_passes :
  snd (main (always (perf_only "0.95")) no_config_file (scores_flag "perf:90"))
  = Ok false.
Proof. vm_compute. reflexivity. Qed.

Example main_perf_fails :
  snd (main (always (perf_only "0.50")) no_config_file (scores_flag "perf:90"))
  = Ok true.
Proof. vm_compute. reflexivity. Qed.

(** A minimum that [validateCategories] lets through by way of
    [Object.prototype] makes the scan fail on a score that is NaN. *)
Example main_inherited_name_fails :
  snd (main (always (perf_only "0.95")) no_config_file
            (scores_flag "constructor:50"))
  = Ok true.
Proof. vm_compute. reflexivity. Qed.

(* ================================================================== *)
(** * Further properties of the bundle *)
(* ================================================================== *)

(** ** Options builder *)

Lemma prepareOptions_of_getConfig (readConfig : value -> result Options)
    (argv : Argv) (opts : Options) :
  getConfig readConfig argv = Ok opts ->
  prepareOptions readConfig argv
  = Ok {| urls := Some (or_default [] (urls opts));
          onlyAudits := Some (or_default [] (onlyAudits opts));
          scores := scores opts;
          showAudits := showAudits opts;
          extendedInfo := Some (or_default false (extendedInfo opts));
          allAudits := Some (or_default false (allAudits opts)) |}.
Proof.
  intros H. unfold prepareOptions. rewrite H.
  destruct opts as [[u |] [o |] [sc |] [sh |] [e |] [a |]]; reflexivity.
Qed.

(** X1: [prepareOptions] fails exactly as [getConfig] does; otherwise the
    prepared options have the four keys [urls], [onlyAudits], [extendedInfo]
    and [allAudits], each with the value [getConfig] gave it or else its
    default ([[]], [[]], [false], [false]); [scores] and [showAudits] are
    passed on untouched, and preparing options that are already complete
    changes nothing. *)
Theorem prepareOptions_fills_defaults (readConfig : value -> result Options)
    (argv : Argv) :
  (forall e, getConfig readConfig argv = Throw e ->
             prepareOptions readConfig argv = Throw e)
  /\ (forall opts,
        getConfig readConfig argv = Ok opts ->
        exists prepared,
          prepareOptions readConfig argv = Ok prepared
          /\ urls prepared = Some (or_default [] (urls opts))
          /\ onlyAudits prepared = Some (or_default [] (onlyAudits opts))
          /\ extendedInfo prepared = Some (or_default false (extendedInfo opts))
          /\ allAudits prepared = Some (or_default false (allAudits opts))
          /\ scores prepared = scores opts
          /\ showAudits prepared = showAudits opts
          /\ (forall u o e a,
                urls opts = Some u -> onlyAudits opts = Some o ->
                extendedInfo opts = Some e -> allAudits opts = Some a ->
                prepared = opts)).
Proof.
  split.
  - intros e H. unfold prepareOptions. now rewrite H.
  - intros opts H. eexists. split; [exact (prepareOptions_of_getConfig _ _ _ H) |].
    repeat split. intros u o e a Hu Ho He Ha.
    destruct opts as [urls0 only0 sc0 sh0 e0 a0]. simpl in *.
    now rewrite Hu, Ho, He, Ha.
Qed.

Lemma prepareOptions_fills_defaults_witness :
  exists prepared,
    prepareOptions two_urls config_and_bad_scores = Ok prepared
    /\ onlyAudits prepared = Some []
    /\ allAudits prepared = Some false.
Proof.
  destruct (prepareOptions_fills_defaults two_urls config_and_bad_scores)
    as [_ H].
  destruct (H (set_showAudits true
                 {| urls := Some [VString "https://a.example";
                                  VString "https://b.example"];
                    onlyAudits := None; scores := None; showAudits := None;
                    extendedInfo := None; allAudits := None |}) eq_refl)
    as (prepared & E & _ & Ho & _ & Ha & _).
  exists prepared. auto.
Defined.

(** X2: with [--config], [getConfig] takes the options from the file and
    nothing from [--url], [--audits] or [--scores]: the outcome is the one
    without these flags (a malformed [--scores] raises no error), an error
    of the file read is passed on, and [--showaudits] still sets
    [showAudits] on the options read. *)
Theorem getConfig_config_file_wins (readConfig : value -> result Options)
    (argv : Argv) :
  truthy (argv_config argv) = true ->
  getConfig readConfig argv = getConfig readConfig (config_only argv)
  /\ (forall e, readConfig (argv_config argv) = Throw e ->
                getConfig readConfig argv = Throw e)
  /\ (forall opts,
        readConfig (argv_config argv) = Ok opts ->
        exists options,
          getConfig readConfig argv = Ok options
          /\ urls options = urls opts
          /\ onlyAudits options = onlyAudits opts
          /\ scores options = scores opts
          /\ extendedInfo options = extendedInfo opts
          /\ allAudits options = allAudits opts
          /\ showAudits options
             = if truthy (argv_showaudits argv) then Some true
               else showAudits opts).
Proof.
  intros Hc. unfold getConfig, config_only. cbn [argv_config argv_showaudits].
  rewrite Hc. split; [reflexivity | split].
  - intros e ->. reflexivity.
  - intros opts ->. cbn [bind].
    destruct (truthy (argv_showaudits argv)); eexists; repeat split.
Qed.

Lemma getConfig_config_file_wins_witness :
  getConfig two_urls config_and_bad_scores
  = getConfig two_urls (config_only config_and_bad_scores)
  /\ exists options,
       getConfig two_urls config_and_bad_scores = Ok options
       /\ scores options = None
       /\ showAudits options = Some true.
Proof.
  destruct (getConfig_config_file_wins two_urls config_and_bad_scores eq_refl)
    as (H1 & _ & H3).
  split; [exact H1 |].
  destruct (H3 _ eq_refl) as (options & E & _ & _ & Hs & _ & _ & Hsh).
  exists options. auto.
Defined.

Lemma split_not_nil (sep : ascii) (s : string) : split sep s <> [].
Proof.
  destruct s as [| c s]; simpl; [discriminate |].
  destruct (Ascii.eqb c sep); [discriminate |].
  destruct (split sep s); discriminate.
Qed.

(** Joining the pieces of a split with the separator gives the text back. *)
Lemma join_split (sep : ascii) (s : string) : join sep (split sep s) = s.
Proof.
  induction s as [| c s IH]; [reflexivity |].
  cbn [split]. destruct (Ascii.eqb_spec c sep) as [-> | Hne].
  - pose proof (split_not_nil sep s) as Hnil.
    destruct (split sep s) as [| t ts]; [contradiction Hnil; reflexivity |].
    cbn [join]. cbn [join] in IH. now rewrite IH.
  - destruct (split sep s) as [| t ts] eqn:E.
    + contradiction (split_not_nil sep s).
    + cbn [join] in *. destruct ts as [| t' ts]; simpl; now rewrite <- IH.
Qed.

(** No piece of a split holds the separator. *)
Lemma split_pieces (sep : ascii) (s : string) :
  Forall (fun t => mem_char sep t = false) (split sep s).
Proof.
  induction s as [| c s IH]; [repeat constructor |].
  cbn [split]. destruct (Ascii.eqb_spec c sep) as [-> | Hne].
  - constructor; [reflexivity | exact IH].
  - destruct (split sep s) as [| t ts]; [repeat constructor |].
    + simpl. apply Ascii.eqb_neq in Hne. rewrite Ascii.eqb_sym in Hne.
      now rewrite Hne.
    + inversion IH as [| ? ? Ht Hts]; subst. constructor; [| exact Hts].
      simpl. rewrite Ht. apply Ascii.eqb_neq in Hne.
      rewrite Ascii.eqb_sym in Hne. now rewrite Hne.
Qed.

Lemma truthy_string (s : string) : truthy (VString s) = true <-> s <> "".
Proof.
  simpl. destruct (String.eqb_spec s ""); simpl; split; congruence.
Qed.

(** X3: without [--config], the options [getConfig] returns hold exactly
    one URL, the value of [--url] (be it [undefined]); they never hold
    [extendedInfo] or [allAudits]; [showAudits] is [true] or missing, never
    [false]; [onlyAudits] is present exactly when [--audits] is a non-empty
    string, and its entries, none of which holds a comma, joined by commas
    give that string back; [scores] is present exactly when [--scores] is
    truthy. *)
Theorem getConfig_flags_path (readConfig : value -> result Options)
    (argv : Argv) (opts : Options) :
  truthy (argv_config argv) = false ->
  getConfig readConfig argv = Ok opts ->
  urls opts = Some [argv_url argv]
  /\ extendedInfo opts = None
  /\ allAudits opts = None
  /\ showAudits opts = (if truthy (argv_showaudits argv) then Some true else None)
  /\ (forall only,
        onlyAudits opts = Some only ->
        exists s,
          argv_audits argv = VString s /\ s <> ""
          /\ join "," only = s
          /\ Forall (fun t => mem_char "," t = false) only)
  /\ (onlyAudits opts = None <-> truthy (argv_audits argv) = false)
  /\ (scores opts = None <-> truthy (argv_scores argv) = false).
Proof.
  intros Hc. unfold getConfig. rewrite Hc.
  destruct (truthy (argv_audits argv)) eqn:Ha.
  - destruct (argv_audits argv) as [| | b | x | s | name] eqn:Eaudits;
      try (cbn [bind]; discriminate).
    cbn [bind]. destruct (truthy (argv_scores argv)) eqn:Hs.
    + destruct (argv_scores argv) as [| | b | x | s' | name];
        try (cbn [bind]; discriminate).
      destruct (forEach_with add_score (split "," s') []) as [parsed | e];
        [| cbn [bind]; discriminate].
      cbn [bind]. intros [= <-].
      destruct (truthy (argv_showaudits argv)); cbn;
        (repeat split; try discriminate;
         intros only [= <-]; exists s;
         repeat split; [now apply truthy_string | apply join_split | apply split_pieces]).
    + cbn [bind]. intros [= <-].
      destruct (truthy (argv_showaudits argv)); cbn;
        (repeat split; try discriminate;
         intros only [= <-]; exists s;
         repeat split; [now apply truthy_string | apply join_split | apply split_pieces]).
  - cbn [bind]. destruct (truthy (argv_scores argv)) eqn:Hs.
    + destruct (argv_scores argv) as [| | b | x | s' | name];
        try (cbn [bind]; discriminate).
      destruct (forEach_with add_score (split "," s') []) as [parsed | e];
        [| cbn [bind]; discriminate].
      cbn [bind]. intros [= <-].
      destruct (truthy (argv_showaudits argv)); cbn;
        repeat split; try discriminate.
    + cbn [bind]. intros [= <-].
      destruct (truthy (argv_showaudits argv)); cbn;
        repeat split; try discriminate.
Qed.

Lemma getConfig_flags_path_witness :
  exists opts,
    getConfig no_config_file example_argv = Ok opts
    /\ urls opts = Some [VString "https://example.com"]
    /\ showAudits opts = None
    /\ join "," (or_default [] (onlyAudits opts)) = "a,b".
Proof.
  exists {| urls := Some [VString "https://example.com"];
            onlyAudits := Some ["a"; "b"];
            scores := Some [("perf", of_Z 90); ("seo", of_Z 50)];
            showAudits := None; extendedInfo := None; allAudits := None |}.
  split; [reflexivity |].
  destruct (getConfig_flags_path no_config_file example_argv
              {| urls := Some [VString "https://example.com"];
                 onlyAudits := Some ["a"; "b"];
                 scores := Some [("perf", of_Z 90); ("seo", of_Z 50)];
                 showAudits := None; extendedInfo := None; allAudits := None |}
              eq_refl eq_refl)
    as (Hu & _ & _ & Hsh & Ho & _).
  split; [exact Hu | split; [exact Hsh |]].
  destruct (Ho ["a"; "b"] eq_refl) as (s & Es & _ & Ej & _).
  exact (eq_trans Ej (eq_sym (f_equal (fun v => match v with VString t => t | _ => "" end) Es))).
Defined.

(** ** Which score tokens are accepted *)

Lemma take_drop (n : nat) (s : string) : take n s ++ drop n s = s.
Proof.
  revert s. induction n as [| n IH]; intros s; simpl.
  - now destruct s.
  - destruct s as [| c s]; simpl; [reflexivity | now rewrite IH].
Qed.

Lemma drop_beyond (n : nat) (s : string) :
  (String.length s <= n)%nat -> drop n s = "".
Proof.
  revert s. induction n as [| n IH]; intros s H.
  - destruct s; [reflexivity | simpl in H; lia].
  - destruct s as [| c s]; [reflexivity |]. simpl in *. apply IH. lia.
Qed.

Lemma no_line_terminator_drop (n : nat) (s : string) :
  no_line_terminator s = true -> no_line_terminator (drop n s) = true.
Proof.
  revert s. induction n as [| n IH]; intros s H.
  - now destruct s.
  - destruct s as [| c s]; [exact H |]. simpl in *.
    apply andb_true_iff in H. now apply IH.
Qed.

(** Where [backtrack] stops, the rest of the pattern matches, and it did
    not match at any longer group 1. *)
Lemma backtrack_inv (n : nat) (s k t : string) :
  backtrack n s = Some (k, t) ->
  exists j,
    (1 <= j)%nat /\ (j <= n)%nat
    /\ colon_group (drop j s) = Some t /\ k = take j s
    /\ forall m, (j < m)%nat -> (m <= n)%nat -> colon_group (drop m s) = None.
Proof.
  induction n as [| n IH]; cbn [backtrack]; [discriminate |].
  destruct (colon_group (drop (S n) s)) as [g |] eqn:E.
  - intros [= <- <-]. exists (S n).
    split; [lia | split; [lia | split; [exact E | split; [reflexivity |]]]].
    intros m H1 H2. lia.
  - intros H. destruct (IH H) as (j & H1 & H2 & H3 & H4 & H5).
    exists j.
    split; [lia | split; [lia | split; [exact H3 | split; [exact H4 |]]]].
    intros m Hm1 Hm2. destruct (Nat.eq_dec m (S n)) as [-> | Hne];
      [exact E | apply H5; lia].
Qed.

Lemma backtrack_complete (n j : nat) (s : string) :
  (1 <= j)%nat -> (j <= n)%nat ->
  colon_group (drop j s) <> None -> backtrack n s <> None.
Proof.
  intros Hj. induction n as [| n IH]; intros Hle Hat; [lia |].
  cbn [backtrack]. destruct (colon_group (drop (S n) s)) eqn:E; [discriminate |].
  apply IH; [| exact Hat].
  destruct (Nat.eq_dec j (S n)) as [-> | Hne]; [congruence | lia].
Qed.

Lemma colon_group_inv (s t : string) :
  no_line_terminator s = true ->
  colon_group s = Some t -> s = ":" ++ t /\ t <> "".
Proof.
  intros Hnl. destruct s as [| c0 s]; [discriminate |].
  destruct s as [| c t'].
  - simpl. destruct c0 as [[] [] [] [] [] [] [] []]; discriminate.
  - simpl in Hnl. apply andb_true_iff in Hnl. destruct Hnl as [_ Hnl].
    apply andb_true_iff in Hnl. destruct Hnl as [Hc Ht'].
    destruct (Ascii.eqb_spec c0 ":") as [-> | Hne].
    + cbn [colon_group]. rewrite Hc, (dot_run_all _ Ht'), take_all.
      intros [= <-]. split; [reflexivity | discriminate].
    + intros H. exfalso. apply Hne. clear - H.
      destruct c0 as [[] [] [] [] [] [] [] []]; try discriminate H. reflexivity.
Qed.

(** A text no suffix of which continues the match has its colons, if any,
    at its very end only. *)
Lemma colon_free_body (t : string) :
  no_line_terminator t = true -> t <> "" ->
  (forall i, colon_group (drop i t) = None) ->
  exists body c, t = body ++ String c "" /\ mem_char ":" body = false.
Proof.
  induction t as [| c0 t IH]; intros Hnl Hne Hall; [contradiction Hne; reflexivity |].
  destruct t as [| c1 t].
  - exists "", c0. split; reflexivity.
  - simpl in Hnl. apply andb_true_iff in Hnl. destruct Hnl as [_ Hnl].
    destruct IH as (body & c & E & Hbody);
      [exact Hnl | discriminate | intros i; exact (Hall (S i)) |].
    exists (String c0 body), c. split; [simpl; now rewrite <- E |].
    cbn [mem_char]. rewrite Hbody, orb_false_r.
    destruct (Ascii.eqb_spec ":" c0) as [<- | Hc0]; [| reflexivity].
    specialize (Hall O). cbn [drop colon_group] in Hall.
    simpl in Hnl. apply andb_true_iff in Hnl. destruct Hnl as [Hc1 _].
    rewrite Hc1 in Hall. discriminate Hall.
Qed.

Lemma match_here_sound (s k t : string) :
  no_line_terminator s = true ->
  match_here s = Some (k, t) -> last_colon_split s k t.
Proof.
  intros Hnl H. unfold match_here in H. rewrite (dot_run_all _ Hnl) in H.
  destruct (backtrack_inv _ _ _ _ H) as (j & Hj1 & Hj2 & Hat & -> & Habove).
  destruct (colon_group_inv _ _ (no_line_terminator_drop j s Hnl) Hat)
    as [Hdrop Ht].
  assert (Hs : s = take j s ++ ":" ++ t)
    by (rewrite <- Hdrop; symmetry; apply take_drop).
  assert (Htail : drop (S j) s = t).
  { replace (S j) with (j + 1)%nat by lia. rewrite <- drop_drop, Hdrop.
    reflexivity. }
  split; [exact Hs | split; [| split; [exact Hnl |]]].
  - destruct j as [| j]; [lia |]. destruct s as [| c s]; [| discriminate].
    simpl in Hdrop. discriminate Hdrop.
  - apply colon_free_body.
    + rewrite <- Htail. now apply no_line_terminator_drop.
    + exact Ht.
    + intros i. rewrite <- Htail, drop_drop.
      destruct (Nat.le_gt_cases (S j + i) (String.length s)) as [Hle | Hgt].
      * apply Habove; lia.
      * rewrite drop_beyond by lia. reflexivity.
Qed.

Lemma last_colon_split_cons (c : ascii) (s k t : string) :
  dot c = true -> last_colon_split s k t -> last_colon_split (String c s) (String c k) t.
Proof.
  intros Hc (-> & Hk & Hnl & Hbody).
  split; [reflexivity | split; [discriminate | split; [| exact Hbody]]].
  simpl. simpl in Hnl. now rewrite Hc, Hnl.
Qed.

(** On a text without line terminators the search never has to move past
    the first start. *)
Lemma match_pair_here (s : string) :
  no_line_terminator s = true -> match_pair s = match_here s.
Proof.
  induction s as [| c s IH]; intros Hnl; [reflexivity |].
  cbn [match_pair]. destruct (match_here (String c s)) as [r |] eqn:E;
    [reflexivity |].
  simpl in Hnl. apply andb_true_iff in Hnl. destruct Hnl as [Hc Hnl].
  rewrite (IH Hnl). destruct (match_here s) as [[k t] |] eqn:E'; [| reflexivity].
  exfalso.
  pose proof (last_colon_split_cons c s k t Hc (match_here_sound _ _ _ Hnl E'))
    as Hsplit.
  apply match_pair_last_colon in Hsplit. cbn [match_pair] in Hsplit.
  rewrite E, (IH Hnl) in Hsplit. injection Hsplit as Hk.
  apply (f_equal String.length) in Hk. simpl in Hk. lia.
Qed.

(** X4: for a [--scores] token without line terminators, the pattern
    matches exactly when the token holds a colon with at least one
    character on either side; tokens such as [:90] and [perf:] raise the
    [TypeError] too.  When it matches, the two groups and the colon make up
    the whole token, split at its last colon that has something after it,
    and the minimum stored under the key is the number [text * 1]. *)
Theorem score_token_accepted (minimums : obj number) (token : string) :
  no_line_terminator token = true ->
  (add_score minimums token = Throw TypeError <->
   ~ exists a b, a <> "" /\ b <> "" /\ token = a ++ ":" ++ b)
  /\ (forall key text,
        match_pair token = Some (key, text) <-> last_colon_split token key text)
  /\ (forall key text,
        match_pair token = Some (key, text) ->
        token = key ++ ":" ++ text
        /\ add_score minimums token
           = Ok (set key (mul (StringToNumber text) (of_Z 1)) minimums)).
Proof.
  intros Hnl.
  assert (Hiff : forall key text,
             match_pair token = Some (key, text) <-> last_colon_split token key text).
  { intros key text. split; [| apply match_pair_last_colon].
    rewrite (match_pair_here _ Hnl). now apply match_here_sound. }
  split; [| split; [exact Hiff |]].
  - unfold add_score. split.
    + destruct (match_pair token) as [[k t] |] eqn:E; [discriminate |].
      intros _ (a & b & Ha & Hb & Htoken).
      rewrite (match_pair_here _ Hnl) in E. unfold match_here in E.
      rewrite (dot_run_all _ Hnl) in E. revert E.
      apply (backtrack_complete _ (String.length a)).
      * destruct a; [contradiction Ha; reflexivity | simpl; lia].
      * rewrite Htoken. clear. induction a; simpl in *; lia.
      * rewrite Htoken, drop_app.
        rewrite Htoken, no_line_terminator_app in Hnl.
        apply andb_true_iff in Hnl. destruct Hnl as [_ Hnl].
        destruct b as [| c b]; [contradiction Hb; reflexivity |].
        simpl in Hnl. apply andb_true_iff in Hnl. destruct Hnl as [Hc _].
        cbn [append colon_group]. rewrite Hc. discriminate.
    + intros Hno. destruct (match_pair token) as [[k t] |] eqn:E; [| reflexivity].
      exfalso. apply Hno.
      destruct (proj1 (Hiff k t) eq_refl) as (Htoken & Hk & _ & body & c & Ht & _).
      exists k, t. split; [exact Hk | split; [| exact Htoken]].
      rewrite Ht. destruct body; discriminate.
  - intros key text E. split.
    + apply Hiff in E. now destruct E.
    + unfold add_score. now rewrite E.
Qed.

Lemma score_token_accepted_witness :
  (~ exists a b, a <> "" /\ b <> "" /\ ":90" = a ++ ":" ++ b)
  /\ (~ exists a b, a <> "" /\ b <> "" /\ "perf:" = a ++ ":" ++ b)
  /\ last_colon_split "a:b:90" "a:b" "90".
Proof.
  split; [| split].
  - destruct (score_token_accepted [] ":90" eq_refl) as ([H _] & _).
    exact (H eq_refl).
  - destruct (score_token_accepted [] "perf:" eq_refl) as ([H _] & _).
    exact (H eq_refl).
  - destruct (score_token_accepted [] "a:b:90" eq_refl) as (_ & H & _).
    exact (proj1 (H "a:b" "90") eq_refl).
Defined.

(** ** Audit filtering: edge cases *)

Lemma filter_idempotent {A} (p : A -> bool) (l : list A) :
  filter p (filter p l) = filter p l.
Proof.
  induction l as [| x l IH]; simpl; [reflexivity |].
  destruct (p x) eqn:E; simpl; [rewrite E, IH; reflexivity | exact IH].
Qed.

(** With [onlyAudits] present, [filterAudits] is a plain filter. *)
Lemma filterAudits_present (category : Category) (options : Options)
    (only : list string) :
  onlyAudits options = Some only ->
  filterAudits category options
  = Ok (filter (fun a => if negb (flag (allAudits options))
                            && (0 <? List.length only)%nat
                         then includes only (ref_id a) else true)
               (auditRefs category)).
Proof.
  intros Ho. unfold filterAudits. apply filter_with_pure. intros a _.
  rewrite Ho. destruct (flag (allAudits options)); simpl; [reflexivity |].
  destruct (0 <? List.length only)%nat; [| reflexivity].
  destruct (includes only (ref_id a)); reflexivity.
Qed.

Lemma filterAudits_all (category : Category) (options : Options) :
  flag (allAudits options) = true ->
  filterAudits category options = Ok (auditRefs category).
Proof.
  intros Hall. unfold filterAudits.
  rewrite (filter_with_pure _ (fun _ => true)).
  - now rewrite filter_all.
  - intros a _. rewrite Hall. reflexivity.
Qed.

(** X5: [filterAudits] never adds or reorders: what it returns is a sublist
    of the category's audit references, and filtering the result again
    returns it unchanged.  It throws only a [TypeError], and exactly when
    [allAudits] is falsy, the options have no [onlyAudits] key and the
    category has at least one audit reference; a category without audit
    references always gives the empty list. *)
Theorem filterAudits_outcomes (category : Category) (options : Options) :
  (forall kept,
      filterAudits category options = Ok kept ->
      sublist kept (auditRefs category)
      /\ filterAudits (with_auditRefs category kept) options = Ok kept)
  /\ (forall e,
        filterAudits category options = Throw e ->
        e = TypeError /\ flag (allAudits options) = false
        /\ onlyAudits options = None /\ auditRefs category <> [])
  /\ (flag (allAudits options) = false -> onlyAudits options = None ->
      auditRefs category <> [] ->
      filterAudits category options = Throw TypeError)
  /\ (auditRefs category = [] -> filterAudits category options = Ok []).
Proof.
  assert (Hthrow : flag (allAudits options) = false -> onlyAudits options = None ->
                   auditRefs category <> [] ->
                   filterAudits category options = Throw TypeError).
  { intros Hall Ho Hne. unfold filterAudits.
    destruct (auditRefs category) as [| a l]; [contradiction Hne; reflexivity |].
    simpl. rewrite Hall, Ho. reflexivity. }
  assert (Hempty : auditRefs category = [] -> filterAudits category options = Ok []).
  { intros E. unfold filterAudits. rewrite E. reflexivity. }
  split; [| split; [| split; [exact Hthrow | exact Hempty]]].
  - intros kept H.
    destruct (flag (allAudits options)) eqn:Hall.
    + rewrite (filterAudits_all _ _ Hall) in H. injection H as <-. split.
      * rewrite <- (filter_all (auditRefs category)) at 1. apply filter_sublist.
      * now rewrite (filterAudits_all _ _ Hall).
    + destruct (onlyAudits options) as [only |] eqn:Ho.
      * rewrite (filterAudits_present _ _ _ Ho) in H. injection H as <-. split.
        -- apply filter_sublist.
        -- rewrite (filterAudits_present _ _ _ Ho). cbn [auditRefs with_auditRefs].
           now rewrite filter_idempotent.
      * destruct (auditRefs category) as [| a l] eqn:E.
        -- rewrite (Hempty eq_refl) in H. injection H as <-.
           split; [constructor | reflexivity].
        -- rewrite Hthrow in H by (auto; discriminate). discriminate H.
  - intros e H.
    destruct (flag (allAudits options)) eqn:Hall.
    + rewrite (filterAudits_all _ _ Hall) in H. discriminate H.
    + destruct (onlyAudits options) as [only |] eqn:Ho.
      * rewrite (filterAudits_present _ _ _ Ho) in H. discriminate H.
      * destruct (auditRefs category) as [| a l] eqn:E.
        -- rewrite (Hempty eq_refl) in H. discriminate H.
        -- rewrite Hthrow in H by (auto; discriminate). injection H as <-.
           repeat split. discriminate.
Qed.

Lemma filterAudits_outcomes_witness :
  filterAudits abc without_onlyAudits = Throw TypeError
  /\ filterAudits (with_auditRefs abc []) without_onlyAudits = Ok [].
Proof.
  split.
  - destruct (filterAudits_outcomes abc without_onlyAudits) as (_ & _ & H & _).
    apply H; [reflexivity | reflexivity | discriminate].
  - destruct (filterAudits_outcomes (with_auditRefs abc []) without_onlyAudits)
      as (_ & _ & _ & H).
    exact (H eq_refl).
Defined.

(** ** Validators: which id the error names, and what validation buys *)

Lemma forEach_first_throw {A} (f : A -> result unit) (pre post : list A)
    (y : A) (e : error) :
  (forall x, In x pre -> f x = Ok tt) -> f y = Throw e ->
  forEach f (pre ++ y :: post) = Throw e.
Proof.
  induction pre as [| x pre IH]; intros Hpre Hy; simpl.
  - now rewrite Hy.
  - rewrite (Hpre x (or_introl eq_refl)). simpl. apply IH; [| exact Hy].
    intros x' Hx'. apply Hpre. now right.
Qed.

Lemma validateAudits_body (categories : obj Category) (id : string) :
  (listed categories id ->
   bind (forEach_with (look_up_audit categories id) (Object_keys categories) false)
        (fun validAudit =>
           if negb validAudit
           then Throw (Error ("Audit <" ++ id ++ "> is unknown"))
           else Ok tt) = Ok tt)
  /\ (~ listed categories id ->
      bind (forEach_with (look_up_audit categories id) (Object_keys categories) false)
           (fun validAudit =>
              if negb validAudit
              then Throw (Error ("Audit <" ++ id ++ "> is unknown"))
              else Ok tt) = Throw (Error ("Audit <" ++ id ++ "> is unknown"))).
Proof.
  destruct (validateAudits_step categories id) as (b & Hb & Hiff).
  rewrite Hb. simpl. destruct b; simpl; split; intros H; try reflexivity.
  - contradiction H. now apply Hiff.
  - apply Hiff in H. discriminate H.
Qed.

(** X6: [validateAudits] checks the ids in the order of [onlyAudits] and
    stops at the first one that no category lists: the error names that id,
    whatever comes after it. *)
Theorem validateAudits_names_first (categories : obj Category)
    (options : Options) (pre post : list string) (id : string) :
  onlyAudits options = Some (pre ++ id :: post)%list ->
  (forall x, In x pre -> listed categories x) ->
  ~ listed categories id ->
  validateAudits categories options
  = Throw (Error ("Audit <" ++ id ++ "> is unknown")).
Proof.
  intros Ho Hpre Hid. unfold validateAudits. rewrite Ho.
  apply forEach_first_throw; cbv zeta.
  - intros x Hx. now apply (validateAudits_body categories x), Hpre.
  - now apply (validateAudits_body categories id).
Qed.

Lemma validateAudits_names_first_witness :
  validateAudits [("perf", abc)] (with_onlyAudits ["a"; "y"; "z"])
  = Throw (Error "Audit <y> is unknown").
Proof.
  apply (validateAudits_names_first [("perf", abc)]
           (with_onlyAudits ["a"; "y"; "z"]) ["a"] ["z"] "y").
  - reflexivity.
  - intros x [<- | []]. exists "perf", abc, {| ref_id := "a" |}.
    split; [reflexivity | split; [simpl; auto | reflexivity]].
  - intros (k & c & r & Hc & Hr & E). simpl in Hc.
    destruct (String.eqb k "perf"); [| discriminate Hc].
    injection Hc as <-. simpl in Hr.
    destruct Hr as [<- | [<- | [<- | []]]]; discriminate E.
Defined.

(** X7: [validateCategories] checks the keys of [options.scores] in the
    order of [Object.keys] (array indices first, in ascending order, then
    the other keys as inserted) and stops at the first key that is neither
    a category of the report nor a property of [Object.prototype]: the
    error names that key. *)
Theorem validateCategories_names_first (categories : obj Category)
    (options : Options) (minimums : obj number) (pre post : list string)
    (k : string) :
  scores options = Some minimums ->
  Object_keys minimums = (pre ++ k :: post)%list ->
  (forall x, In x pre ->
     (exists c, get_own x categories = Some c) \/ In x Object_prototype) ->
  get_own k categories = None ->
  ~ In k Object_prototype ->
  validateCategories categories options
  = Throw (Error ("Category <" ++ k ++ "> is unknown")).
Proof.
  intros Hs Hkeys Hpre Hown Hproto. unfold validateCategories.
  rewrite Hs, Hkeys. apply forEach_first_throw.
  - intros x Hx. destruct (get categories x) eqn:E; try reflexivity.
    apply get_Absent in E. destruct E as [E1 E2].
    destruct (Hpre x Hx) as [[c Hc] | Hin]; [congruence | contradiction].
  - now rewrite (proj2 (get_Absent categories k) (conj Hown Hproto)).
Qed.

Lemma validateCategories_names_first_witness :
  Object_keys unknown_minimums = ["2"; "10"; "zeta"; "toString"]
  /\ validateCategories only_foo (with_scores unknown_minimums)
     = Throw (Error "Category <2> is unknown").
Proof.
  split; [reflexivity |].
  apply (validateCategories_names_first only_foo (with_scores unknown_minimums)
           unknown_minimums [] ["10"; "zeta"; "toString"] "2").
  - reflexivity.
  - reflexivity.
  - intros x [].
  - reflexivity.
  - simpl. intros H.
    repeat (destruct H as [H | H]; [discriminate H |]). exact H.
Defined.

Lemma validateAudits_Ok_listed (categories : obj Category) (options : Options)
    (only : list string) (id : string) :
  validateAudits categories options = Ok tt ->
  onlyAudits options = Some only -> In id only -> listed categories id.
Proof.
  unfold validateAudits. intros H Ho Hid. rewrite Ho in H.
  pose proof (proj1 (forEach_Ok _ _) H id Hid) as Hbody.
  cbv beta zeta in Hbody.
  destruct (validateAudits_step categories id) as (b & Hb & Hiff).
  rewrite Hb in Hbody. simpl in Hbody.
  destruct b; [now apply Hiff | discriminate Hbody].
Qed.

(** X8: validation guarantees that no requested audit gets lost: once
    [validateAudits] has returned, every id of [onlyAudits] is the id of an
    audit reference that [filterAudits] keeps for some category of the
    report. *)
Theorem validated_audits_are_kept (categories : obj Category)
    (options : Options) (only : list string) (id : string) :
  validateAudits categories options = Ok tt ->
  onlyAudits options = Some only ->
  In id only ->
  exists k c kept r,
    get_own k categories = Some c
    /\ filterAudits c options = Ok kept
    /\ In r kept /\ ref_id r = id.
Proof.
  intros Hv Ho Hid.
  destruct (validateAudits_Ok_listed _ _ _ _ Hv Ho Hid) as (k & c & r & Hc & Hr & E).
  exists k, c. eexists. exists r.
  split; [exact Hc | split; [apply (filterAudits_present _ _ _ Ho) |]].
  split; [| exact E]. apply filter_In. split; [exact Hr |].
  destruct (negb (flag (allAudits options)) && (0 <? List.length only)%nat);
    [| reflexivity].
  apply includes_In. now rewrite E.
Qed.

Lemma validated_audits_are_kept_witness :
  exists k c kept r,
    get_own k [("perf", abc)] = Some c
    /\ filterAudits c (with_onlyAudits ["b"]) = Ok kept
    /\ In r kept /\ ref_id r = "b".
Proof.
  apply (validated_audits_are_kept [("perf", abc)] (with_onlyAudits ["b"]) ["b"] "b").
  - reflexivity.
  - reflexivity.
  - simpl. auto.
Defined.

(** ** Scan: nothing is printed before validation *)

Lemma io_bind_throw {A B} (e : error) (k : A -> IO B) :
  io_bind (lift (Throw e)) k = ([], Throw e).
Proof. reflexivity. Qed.

(** X9: [scan] prints only once the report is there and, outside the
    [showAudits] mode, both validators have returned: an error of the
    runner or of a validator comes out of [scan] unchanged, with no output
    before it. *)
Theorem scan_validates_before_printing (run : value -> result Report)
    (url : value) (options : Options) :
  (forall e, run url = Throw e -> scan run url options = ([], Throw e))
  /\ (forall results e,
        run url = Ok results -> flag (showAudits options) = false ->
        validateCategories (categories results) options = Throw e ->
        scan run url options = ([], Throw e))
  /\ (forall results e,
        run url = Ok results -> flag (showAudits options) = false ->
        validateCategories (categories results) options = Ok tt ->
        validateAudits (categories results) options = Throw e ->
        scan run url options = ([], Throw e))
  /\ (fst (scan run url options) <> [] ->
      exists results,
        run url = Ok results
        /\ (flag (showAudits options) = true
            \/ (validateCategories (categories results) options = Ok tt
                /\ validateAudits (categories results) options = Ok tt))).
Proof.
  assert (H1 : forall e, run url = Throw e -> scan run url options = ([], Throw e)).
  { intros e H. unfold scan. now rewrite H. }
  assert (H2 : forall results e,
             run url = Ok results -> flag (showAudits options) = false ->
             validateCategories (categories results) options = Throw e ->
             scan run url options = ([], Throw e)).
  { intros results e Hrun Hshow Hv. unfold scan. rewrite Hrun, Hshow.
    change (lift (Ok results)) with (ret results).
    now rewrite io_bind_ret, Hv. }
  assert (H3 : forall results e,
             run url = Ok results -> flag (showAudits options) = false ->
             validateCategories (categories results) options = Ok tt ->
             validateAudits (categories results) options = Throw e ->
             scan run url options = ([], Throw e)).
  { intros results e Hrun Hshow Hc Hv. unfold scan. rewrite Hrun, Hshow.
    change (lift (Ok results)) with (ret results).
    rewrite io_bind_ret, Hc. change (lift (Ok tt)) with (ret tt).
    now rewrite io_bind_ret, Hv. }
  split; [exact H1 | split; [exact H2 | split; [exact H3 |]]].
  intros Hout. destruct (run url) as [results | e] eqn:Hrun.
  - exists results. split; [reflexivity |].
    destruct (flag (showAudits options)) eqn:Hshow; [now left | right].
    destruct (validateCategories (categories results) options) as [[] | e] eqn:Hc.
    + split; [reflexivity |].
      destruct (validateAudits (categories results) options) as [[] | e] eqn:Ha;
        [reflexivity |].
      rewrite (H3 results e eq_refl eq_refl Hc Ha) in Hout.
      contradiction Hout; reflexivity.
    + rewrite (H2 results e eq_refl eq_refl Hc) in Hout.
      contradiction Hout; reflexivity.
  - rewrite (H1 e eq_refl) in Hout. contradiction Hout; reflexivity.
Qed.

Lemma scan_validates_before_printing_witness :
  scan (always example_report) (VString "https://example.com")
       (with_scores [("bar", of_Z 50)])
  = ([], Throw (Error "Category <bar> is unknown")).
Proof.
  destruct (scan_validates_before_printing (always example_report)
              (VString "https://example.com") (with_scores [("bar", of_Z 50)]))
    as (_ & H & _).
  apply (H example_report); reflexivity.
Defined.

(** ** Scan: the [showAudits] mode on a report with a dangling reference *)

Lemma forEach_io_unit_Ok {A} (f : unit -> A -> IO unit) (l : list A)
    (out : list output) :
  forEach_io f l tt = (out, Ok tt) ->
  forall x, In x l -> exists o, f tt x = (o, Ok tt).
Proof.
  revert out. induction l as [| x l IH]; intros out H y Hy; [destruct Hy |].
  cbn [forEach_io] in H. unfold io_bind in H.
  destruct (f tt x) as [o [[] | e]] eqn:E; [| discriminate H].
  destruct (forEach_io f l tt) as [o' r] eqn:E'.
  injection H as _ ->.
  destruct Hy as [<- | Hy]; [now exists o | exact (IH o' eq_refl y Hy)].
Qed.

Lemma forEach_io_unit_outcome {A} (f : unit -> A -> IO unit) (l : list A) :
  (forall x, In x l -> snd (f tt x) = Ok tt \/ snd (f tt x) = Throw TypeError) ->
  snd (forEach_io f l tt) = Ok tt \/ snd (forEach_io f l tt) = Throw TypeError.
Proof.
  induction l as [| x l IH]; intros Hf; [now left |].
  cbn [forEach_io]. unfold io_bind.
  destruct (Hf x (or_introl eq_refl)) as [E | E];
    destruct (f tt x) as [o [[] | e]]; simpl in E; try discriminate E.
  - destruct (forEach_io f l tt) as [o' r]. simpl.
    apply IH. intros y Hy. apply Hf. now right.
  - right. simpl. exact E.
Qed.

Lemma describe_audit_outcome (results : Report) (r : AuditRef) :
  snd (describe_audit results tt r) = Ok tt
  \/ snd (describe_audit results tt r) = Throw TypeError.
Proof.
  unfold describe_audit.
  destruct (audit_of (get (audits results) (ref_id r))); [left | right]; reflexivity.
Qed.

Lemma describe_category_outcome (results : Report) (k : string) :
  snd (describe_category results tt k) = Ok tt
  \/ snd (describe_category results tt k) = Throw TypeError.
Proof.
  unfold describe_category.
  destruct (get (categories results) k) as [c | name |];
    [| right; reflexivity | right; reflexivity].
  unfold headline. rewrite io_bind_emit. cbn [snd].
  apply forEach_io_unit_outcome. intros r _. apply describe_audit_outcome.
Qed.

(** X10: in the [showAudits] mode a report with an audit reference that
    leads to nothing in [results.audits] (no audit of that id, and no
    property of [Object.prototype] of that name) makes [scan] throw a
    [TypeError] instead of returning "no failure". *)
Theorem scan_showAudits_dangling_reference (run : value -> result Report)
    (url : value) (results : Report) (options : Options)
    (k : string) (c : Category) (r : AuditRef) :
  run url = Ok results ->
  flag (showAudits options) = true ->
  get_own k (categories results) = Some c ->
  In r (auditRefs c) ->
  get (audits results) (ref_id r) = Absent ->
  snd (scan run url options) = Throw TypeError.
Proof.
  intros Hrun Hshow Hc Hr Habsent.
  assert (E : scan run url options = show_audits results).
  { unfold scan. rewrite Hrun, Hshow.
    change (lift (Ok results)) with (ret results). now rewrite io_bind_ret. }
  rewrite E. unfold show_audits.
  destruct (forEach_io (describe_category results)
              (Object_keys (categories results)) tt) as [out res] eqn:Eloop.
  pose proof (forEach_io_unit_outcome (describe_category results)
                (Object_keys (categories results))
                (fun x _ => describe_category_outcome results x)) as Hout.
  rewrite Eloop in Hout. simpl in Hout. unfold io_bind.
  destruct Hout as [-> | ->]; [| reflexivity]. exfalso.
  assert (Hk : In k (Object_keys (categories results)))
    by (apply Object_keys_own; now exists c).
  destruct (forEach_io_unit_Ok _ _ _ Eloop k Hk) as [o Ho].
  unfold describe_category in Ho. rewrite (proj2 (get_Own _ _ _) Hc) in Ho.
  unfold headline in Ho. rewrite io_bind_emit in Ho.
  destruct (forEach_io (describe_audit results) (auditRefs c) tt)
    as [o' res'] eqn:Einner.
  simpl in Ho. injection Ho as _ ->.
  destruct (forEach_io_unit_Ok _ _ _ Einner r Hr) as [o'' Ho''].
  unfold describe_audit in Ho''. rewrite Habsent in Ho''. discriminate Ho''.
Qed.

Lemma scan_showAudits_dangling_reference_witness :
  snd (scan (always dangling_report) (VString "https://example.com")
            show_with_unknown_ids)
  = Throw TypeError.
Proof.
  apply (scan_showAudits_dangling_reference (always dangling_report)
           (VString "https://example.com") dangling_report
           show_with_unknown_ids "perf" abc {| ref_id := "b" |}).
  - reflexivity.
  - reflexivity.
  - reflexivity.
  - simpl. auto.
  - reflexivity.
Defined.

(** ** Scan: the audits section *)

Lemma auditPassedStatus_range (a : Audit) :
  auditPassedStatus a = 0 \/ auditPassedStatus a = 1 \/ auditPassedStatus a = 2.
Proof.
  unfold auditPassedStatus.
  destruct (_ || _); [auto |]. destruct (is_string _ "error"); [auto |].
  destruct (ge _ _); auto.
Qed.

(** One audit: it goes either to the detailed print or to the table, to the
    table only when it did not fail, and it raises the flag exactly when it
    failed. *)
Lemma check_audit_step (results : Report) (options : Options)
    (rows0 : list AuditRow) (f0 : bool) (r : AuditRef) (a : Audit) :
  audit_of (get (audits results) (ref_id r)) = Some a ->
  exists out rows,
    check_audit results options (rows0, f0) r
      = (out, Ok ((rows0 ++ rows)%list, f0 || fails results r))
    /\ Forall (fun row => row_audit_result row <> cross) rows
    /\ (flag (extendedInfo options) = true -> rows = [])
    /\ (List.length rows + List.length (filter is_detail out) = 1)%nat
    /\ Forall (table_without_failures (flag (extendedInfo options))) out.
Proof.
  intros Ha. unfold check_audit, fails. rewrite Ha.
  destruct (auditPassedStatus_range a) as [E | [E | E]]; rewrite E;
    cbn [Z.eqb Pos.eqb orb]; destruct (flag (extendedInfo options)); cbn [orb];
    rewrite ?orb_true_r, ?orb_false_r;
    unfold log, prettyJson, linebreak; rewrite ?io_bind_emit; cbn [fst snd ret];
    first
      [ eexists _, []; rewrite app_nil_r;
        split; [reflexivity |]; split; [constructor |];
        split; [intros _; reflexivity |]; split; [reflexivity |];
        repeat constructor
      | eexists [], [_];
        split; [reflexivity |];
        split; [constructor; [discriminate | constructor] |];
        split; [discriminate |]; split; [reflexivity | constructor] ].
Qed.

Lemma filter_is_detail_app (l l' : list output) :
  List.length (filter is_detail (l ++ l'))
  = (List.length (filter is_detail l) + List.length (filter is_detail l'))%nat.
Proof. now rewrite filter_app, length_app. Qed.

(** The loop over the audit references a category keeps. *)
Lemma check_audit_loop (results : Report) (options : Options)
    (refs : list AuditRef) (rows0 : list AuditRow) (f0 : bool) :
  (forall r, In r refs -> audit_of (get (audits results) (ref_id r)) <> None) ->
  exists out rows f,
    forEach_io (check_audit results options) refs (rows0, f0)
      = (out, Ok ((rows0 ++ rows)%list, f))
    /\ (f = true <-> f0 = true \/ exists r, In r refs /\ fails results r = true)
    /\ Forall (fun row => row_audit_result row <> cross) rows
    /\ (flag (extendedInfo options) = true -> rows = [])
    /\ (List.length rows + List.length (filter is_detail out)
        = List.length refs)%nat
    /\ Forall (table_without_failures (flag (extendedInfo options))) out.
Proof.
  revert rows0 f0. induction refs as [| r refs IH]; intros rows0 f0 Hres.
  - exists [], [], f0. rewrite app_nil_r.
    split; [reflexivity |]. split.
    { split; [auto | intros [H | (r & [] & _)]; exact H]. }
    repeat split; constructor.
  - destruct (audit_of (get (audits results) (ref_id r))) as [a |] eqn:Ha;
      [| contradiction (Hres r (or_introl eq_refl))].
    destruct (check_audit_step results options rows0 f0 r a Ha)
      as (out1 & rows1 & E1 & Hrows1 & Hext1 & Hlen1 & Hout1).
    destruct (IH (rows0 ++ rows1)%list (f0 || fails results r))
      as (out2 & rows2 & f & E2 & Hf & Hrows2 & Hext2 & Hlen2 & Hout2).
    { intros r' Hr'. apply Hres. now right. }
    exists (out1 ++ out2)%list, (rows1 ++ rows2)%list, f.
    split; [| split; [| split; [| split; [| split]]]].
    + cbn [forEach_io]. unfold io_bind. rewrite E1, E2, app_assoc. reflexivity.
    + rewrite Hf, orb_true_iff. split.
      * intros [[H | H] | (r' & Hr' & H)]; [now left | |].
        -- right. exists r. split; [now left | exact H].
        -- right. exists r'. split; [now right | exact H].
      * intros [H | (r' & [<- | Hr'] & H)]; [now left; left | |].
        -- left. now right.
        -- right. now exists r'.
    + apply Forall_app. now split.
    + intros Hext. now rewrite (Hext1 Hext), (Hext2 Hext).
    + rewrite length_app, filter_is_detail_app. cbn [List.length]. lia.
    + apply Forall_app. now split.
Qed.

Lemma filterAudits_keeps_refs (category : Category) (options : Options)
    (kept : list AuditRef) (r : AuditRef) :
  filterAudits category options = Ok kept -> In r kept ->
  In r (auditRefs category).
Proof.
  intros H Hr. destruct (flag (allAudits options)) eqn:Hall.
  - rewrite (filterAudits_all _ _ Hall) in H. now injection H as <-.
  - destruct (onlyAudits options) as [only |] eqn:Ho.
    + rewrite (filterAudits_present _ _ _ Ho) in H. injection H as <-.
      now apply filter_In in Hr.
    + unfold filterAudits in H.
      destruct (auditRefs category) as [| a l]; simpl in H.
      * injection H as <-. destruct Hr.
      * rewrite Hall, Ho in H. discriminate H.
Qed.

(** One category of the audits section. *)
Lemma check_category_audits_step (results : Report) (options : Options)
    (f0 : bool) (k : string) (c : Category) (kept : list AuditRef) :
  get_own k (categories results) = Some c ->
  filterAudits c options = Ok kept ->
  (forall r, In r kept -> audit_of (get (audits results) (ref_id r)) <> None) ->
  exists out f,
    check_category_audits results options f0 k = (out, Ok f)
    /\ (f = true <-> f0 = true \/ exists r, In r kept /\ fails results r = true)
    /\ Forall (table_without_failures (flag (extendedInfo options))) out
    /\ (List.length (filter is_detail out) <= List.length kept)%nat.
Proof.
  intros Hc Hkept Hres. unfold check_category_audits.
  rewrite (proj2 (get_Own _ _ _) Hc), Hkept.
  change (lift (Ok kept)) with (ret kept). rewrite io_bind_ret.
  destruct kept as [| r0 kept0] eqn:Ek.
  - exists [], f0. split; [reflexivity |]. split.
    { split; [auto | intros [H | (r & [] & _)]; exact H]. }
    split; [constructor | simpl; lia].
  - rewrite <- Ek in *. replace (0 <? List.length kept)%nat with true
      by (rewrite Ek; reflexivity).
    destruct (check_audit_loop results options kept [] f0 Hres)
      as (out & rows & f & E & Hf & Hrows & Hext & Hlen & Hout).
    exists (SubHeadline (VString (cat_title c)) :: out
              ++ [Linebreak; Log (AuditTable rows)])%list, f.
    split; [| split; [exact Hf | split]].
    + unfold subHeadline, linebreak, log. rewrite io_bind_emit.
      unfold io_bind at 1. rewrite E. cbn [app]. rewrite !io_bind_emit.
      reflexivity.
    + constructor; [exact I |]. apply Forall_app. split; [exact Hout |].
      constructor; [exact I |]. constructor; [| constructor].
      split; assumption.
    + cbn [filter is_detail]. rewrite filter_is_detail_app. simpl. lia.
Qed.

(** The loop over the categories of the report. *)
Lemma check_category_audits_loop (results : Report) (options : Options)
    (ks : list string) (f0 : bool) :
  (forall k, In k ks ->
     exists c kept,
       get_own k (categories results) = Some c
       /\ filterAudits c options = Ok kept
       /\ forall r, In r kept ->
                    audit_of (get (audits results) (ref_id r)) <> None) ->
  exists out f,
    forEach_io (check_category_audits results options) ks f0 = (out, Ok f)
    /\ (f = true <->
        f0 = true
        \/ exists k c kept r,
             In k ks /\ get_own k (categories results) = Some c
             /\ filterAudits c options = Ok kept
             /\ In r kept /\ fails results r = true)
    /\ Forall (table_without_failures (flag (extendedInfo options))) out.
Proof.
  revert f0. induction ks as [| k ks IH]; intros f0 Hks.
  - exists [], f0. split; [reflexivity |]. split; [| constructor].
    split; [auto | intros [H | (k & c & kept & r & [] & _)]; exact H].
  - destruct (Hks k (or_introl eq_refl)) as (c & kept & Hc & Hkept & Hres).
    destruct (check_category_audits_step results options f0 k c kept Hc Hkept Hres)
      as (out1 & f1 & E1 & Hf1 & Hout1 & _).
    destruct (IH f1) as (out2 & f & E2 & Hf & Hout2).
    { intros k' Hk'. apply Hks. now right. }
    exists (out1 ++ out2)%list, f. split; [| split].
    + cbn [forEach_io]. unfold io_bind. now rewrite E1, E2.
    + rewrite Hf, Hf1. split.
      * intros [[H | (r & Hr & H)] | (k' & c' & kept' & r & Hk' & H)].
        -- now left.
        -- right. exists k, c, kept, r. split; [now left | auto].
        -- right. exists k', c', kept', r. split; [now right | exact H].
      * intros [H | (k' & c' & kept' & r & [<- | Hk'] & Hc' & Hkept' & Hr & H)].
        -- now left; left.
        -- left. right. rewrite Hc in Hc'. injection Hc' as <-.
           rewrite Hkept in Hkept'. injection Hkept' as <-. now exists r.
        -- right. exists k', c', kept', r. auto.
    + apply Forall_app. now split.
Qed.

(** With [onlyAudits] present, every category can be filtered. *)
Lemma categories_filterable (results : Report) (options : Options) (k : string) :
  onlyAudits options <> None \/ flag (allAudits options) = true ->
  refs_resolve results ->
  In k (Object_keys (categories results)) ->
  exists c kept,
    get_own k (categories results) = Some c
    /\ filterAudits c options = Ok kept
    /\ forall r, In r kept -> audit_of (get (audits results) (ref_id r)) <> None.
Proof.
  intros Ho Hres Hk. apply Object_keys_own in Hk. destruct Hk as [c Hc].
  assert (Hkept : exists kept, filterAudits c options = Ok kept).
  { destruct (flag (allAudits options)) eqn:Hall.
    - eexists. now apply filterAudits_all.
    - destruct (onlyAudits options) as [only |] eqn:Eo.
      + eexists. exact (filterAudits_present _ _ only Eo).
      + destruct Ho as [Ho | Ho]; [contradiction Ho; reflexivity | discriminate Ho]. }
  destruct Hkept as [kept Hkept]. exists c, kept.
  split; [exact Hc | split; [exact Hkept |]].
  intros r Hr. pose proof (filterAudits_keeps_refs _ _ _ _ Hkept Hr) as Hin.
  specialize (Hres k c r Hc Hin).
  destruct (get (audits results) (ref_id r)); simpl; congruence.
Qed.

(** X11: the audits section, for options that hold [onlyAudits] (or set
    [allAudits]) and a report whose audit references resolve: it returns
    normally; the failure flag it returns is set exactly when it was set
    before or some audit kept by [filterAudits] is classified "not passed";
    no compact table ever shows a failed audit, and with [extendedInfo] set
    every table is empty, each audit being printed in full instead. *)
Theorem audits_section_spec (results : Report) (options : Options)
    (hasFailures : bool) :
  onlyAudits options <> None \/ flag (allAudits options) = true ->
  refs_resolve results ->
  exists out fail,
    check_audits results options hasFailures = (Headline "audits" :: out, Ok fail)
    /\ (fail = true <-> hasFailures = true \/ audit_failure results options)
    /\ Forall (table_without_failures (flag (extendedInfo options))) out.
Proof.
  intros Ho Hres.
  destruct (check_category_audits_loop results options
              (Object_keys (categories results)) hasFailures)
    as (out & fail & E & Hf & Hout).
  { intros k Hk. now apply categories_filterable. }
  exists out, fail. split; [| split; [| exact Hout]].
  - unfold check_audits, headline. rewrite io_bind_emit, E. reflexivity.
  - rewrite Hf. unfold audit_failure. split.
    + intros [H | (k & c & kept & r & _ & H)]; [now left |].
      right. now exists k, c, kept, r.
    + intros [H | (k & c & kept & r & Hc & H)]; [now left |].
      right. exists k, c, kept, r. split; [| auto].
      apply Object_keys_own. now exists c.
Qed.

Lemma audits_section_spec_witness :
  exists out fail,
    check_audits example_report (with_onlyAudits ["a"; "b"]) false
    = (Headline "audits" :: out, Ok fail)
    /\ (fail = true <->
        false = true \/ audit_failure example_report (with_onlyAudits ["a"; "b"])).
Proof.
  destruct (audits_section_spec example_report (with_onlyAudits ["a"; "b"]) false)
    as (out & fail & E & Hf & _).
  - left. discriminate.
  - intros k c r Hc Hr. simpl in Hc.
    destruct (String.eqb k "perf"); [| discriminate Hc].
    injection Hc as <-. simpl in Hr.
    destruct Hr as [<- | [<- | [<- | []]]]; discriminate.
  - exists out, fail. now split.
Defined.

(** ** Scan: the failure flag *)

(** The loop of the scores section over keys that read as something on
    [results.categories]: the flag is raised exactly when a category with a
    truthy minimum does not reach it. *)
Lemma check_category_loop_ge (results : Report) (scores : obj number)
    (ks : list string) (rows0 : list ScoreRow) (f0 : bool) :
  (forall k, In k ks ->
     get (categories results) k <> Absent
     /\ exists minimum, get_own k scores = Some minimum) ->
  exists rows f,
    forEach_io (check_category results scores) ks (rows0, f0)
      = ([], Ok ((rows0 ++ rows)%list, f))
    /\ (f = true <->
        f0 = true
        \/ exists k minimum,
             In k ks /\ get_own k scores = Some minimum
             /\ truthy_number minimum = true
             /\ ge (mul (ToNumber (score_of (get (categories results) k)))
                        (of_Z 100)) minimum = false).
Proof.
  revert rows0 f0. induction ks as [| k ks IH]; intros rows0 f0 Hks.
  - exists [], f0. rewrite app_nil_r. split; [reflexivity |].
    split; [auto | intros [H | (k & m & [] & _)]; exact H].
  - destruct (Hks k (or_introl eq_refl)) as (Hk & m & Hm).
    assert (Hrest : forall k', In k' ks ->
              get (categories results) k' <> Absent
              /\ exists minimum, get_own k' scores = Some minimum)
      by (intros k' Hk'; apply Hks; now right).
    set (product := mul (ToNumber (score_of (get (categories results) k)))
                        (of_Z 100)).
    assert (Estep : check_category results scores (rows0, f0) k
                    = if truthy_number m
                      then ret ((rows0 ++
                                   [ {| row_result := if negb (ge product m)
                                                      then cross else tick;
                                        row_category :=
                                          title_of (get (categories results) k);
                                        row_minScore := VNumber m;
                                        row_score := product |} ])%list,
                                if negb (ge product m) then true else f0)
                      else ret (rows0, f0)).
    { unfold check_category, product.
      rewrite (proj2 (get_Own _ _ _) Hm). cbn [minScore_of truthy ToNumber].
      destruct (get (categories results) k) as [c | name |];
        [reflexivity | reflexivity | contradiction Hk; reflexivity]. }
    cbn [forEach_io]. rewrite Estep.
    destruct (truthy_number m) eqn:Ht; rewrite io_bind_ret.
    + match goal with
      | |- context [forEach_io _ ks (?rows1, ?f1)] =>
          destruct (IH rows1 f1 Hrest) as (rows & f & E & Hf)
      end.
      eexists (_ :: rows), f. split.
      * rewrite E, <- app_assoc. reflexivity.
      * rewrite Hf. split.
        -- intros [H | (k' & m' & Hk' & H)].
           ++ destruct (ge product m) eqn:Ege; simpl in H; [now left |].
              right. exists k, m.
              split; [now left | split; [exact Hm | split; [exact Ht | exact Ege]]].
           ++ right. exists k', m'. split; [now right | exact H].
        -- intros [H | (k' & m' & [<- | Hk'] & Hm' & Ht' & Hge)].
           ++ left. rewrite H. now destruct (negb (ge product m)).
           ++ left. rewrite Hm in Hm'. injection Hm' as <-.
              fold product in Hge. now rewrite Hge.
           ++ right. exists k', m'. auto.
    + destruct (IH rows0 f0 Hrest) as (rows & f & E & Hf).
      exists rows, f. split; [exact E |]. rewrite Hf. split.
      * intros [H | (k' & m' & Hk' & H)]; [now left |].
        right. exists k', m'. split; [now right | exact H].
      * intros [H | (k' & m' & [<- | Hk'] & Hm' & Ht' & Hge)]; [now left | |].
        -- rewrite Hm in Hm'. injection Hm' as <-. congruence.
        -- right. exists k', m'. auto.
Qed.

(** X12: outside the [showAudits] mode, for a report whose audit references
    resolve and options that passed both validators and hold [onlyAudits]
    (or set [allAudits]), [scan] returns normally, and it reports a failure
    exactly when a category with a truthy minimum does not reach it or an
    audit kept by [filterAudits] is classified "not passed". *)
Theorem scan_failure_flag (run : value -> result Report) (url : value)
    (results : Report) (options : Options) :
  run url = Ok results ->
  flag (showAudits options) = false ->
  validateCategories (categories results) options = Ok tt ->
  validateAudits (categories results) options = Ok tt ->
  onlyAudits options <> None \/ flag (allAudits options) = true ->
  refs_resolve results ->
  exists out fail,
    scan run url options = (out, Ok fail)
    /\ (fail = true <->
        (exists minimums,
            scores options = Some minimums /\ score_failure results minimums)
        \/ audit_failure results options).
Proof.
  intros Hrun Hshow Hcat Haud Ho Hres.
  assert (Haudits : forall f0,
             exists out fail,
               check_audits results options f0 = (out, Ok fail)
               /\ (fail = true <-> f0 = true \/ audit_failure results options)).
  { intros f0.
    destruct (check_category_audits_loop results options
                (Object_keys (categories results)) f0)
      as (out & fail & E & Hf & _).
    { intros k Hk. now apply categories_filterable. }
    exists (Headline "audits" :: out), fail. split.
    - unfold check_audits, headline. rewrite io_bind_emit, E. reflexivity.
    - rewrite Hf. unfold audit_failure. split.
      + intros [H | (k & c & kept & r & _ & H)]; [now left |].
        right. now exists k, c, kept, r.
      + intros [H | (k & c & kept & r & Hc & H)]; [now left |].
        right. exists k, c, kept, r. split; [| auto].
        apply Object_keys_own. now exists c. }
  unfold scan. rewrite Hrun, Hshow.
  change (lift (Ok results)) with (ret results).
  rewrite io_bind_ret, Hcat, Haud. change (lift (Ok tt)) with (ret tt).
  rewrite !io_bind_ret.
  destruct (scores options) as [sc |] eqn:Hsc.
  - destruct (check_category_loop_ge results sc (Object_keys sc) [] false)
      as (rows & f1 & E1 & Hf1).
    { intros k Hk. split.
      - destruct (validateCategories_spec (categories results) options)
          as [[Hspec _] _].
        exact (Hspec Hcat sc k Hsc Hk).
      - now apply Object_keys_own. }
    destruct (Haudits f1) as (out & fail & E2 & Hf2).
    exists ([Headline "scores"; Linebreak; Log (ScoreTable rows)] ++ out)%list, fail.
    assert (Esc : check_categories results sc false
                  = ([Headline "scores"; Linebreak; Log (ScoreTable rows)], Ok f1)).
    { unfold check_categories, headline, linebreak, log.
      rewrite io_bind_emit, E1. reflexivity. }
    split.
    + rewrite Esc. unfold io_bind. rewrite E2. reflexivity.
    + rewrite Hf2, Hf1. unfold score_failure. split.
      * intros [[H | (k & m & _ & H)] | H]; [discriminate H | | now right].
        left. exists sc. split; [reflexivity | now exists k, m].
      * intros [(sc' & [= <-] & k & m & Hm & H) | H]; [| now right].
        left. right. exists k, m. split; [| auto].
        apply Object_keys_own. now exists m.
  - rewrite io_bind_ret. destruct (Haudits false) as (out & fail & E & Hf).
    exists out, fail. split; [exact E |]. rewrite Hf. split.
    + intros [H | H]; [discriminate H | now right].
    + intros [(sc & H & _) | H]; [discriminate H | now right].
Qed.

Lemma scan_failure_flag_witness :
  exists out fail,
    scan (always example_report) (VString "https://example.com")
         (with_scores [("perf", of_Z 96)]) = (out, Ok fail)
    /\ fail = true.
Proof.
  destruct (scan_failure_flag (always example_report)
              (VString "https://example.com") example_report
              (with_scores [("perf", of_Z 96)]))
    as (out & fail & E & Hf).
  - reflexivity.
  - reflexivity.
  - reflexivity.
  - reflexivity.
  - left. discriminate.
  - intros k c r Hc Hr. simpl in Hc.
    destruct (String.eqb k "perf"); [| discriminate Hc].
    injection Hc as <-. simpl in Hr.
    destruct Hr as [<- | [<- | [<- | []]]]; discriminate.
  - exists out, fail. split; [exact E |]. apply Hf. left.
    exists [("perf", of_Z 96)]. split; [reflexivity |].
    exists "perf", (of_Z 96). repeat split.
Defined.

(** ** Entry point *)

(** The loop of the entry point when every scan returns: the flag ends up
    as the disjunction of its start value and the outcomes. *)
Lemma main_loop_returns (run : value -> result Report) (options : Options)
    (us : list value) (bs : list bool) (f0 : bool) :
  Forall2 (fun u b => snd (scan run u options) = Ok b) us bs ->
  snd (forEach_io
         (fun hasFailures url =>
            log (Scanning url) ;;~
            hasFailure <~ scan run url options ;;
            ret (hasFailure || hasFailures))
         us f0)
  = Ok (existsb (fun b => b) bs || f0).
Proof.
  intros H. revert f0. induction H as [| u b us bs Hu _ IH]; intros f0.
  - reflexivity.
  - cbn [forEach_io existsb]. unfold log at 1. unfold io_bind at 1.
    rewrite io_bind_emit. unfold io_bind at 1.
    destruct (scan run u options) as [out r]. simpl in Hu. subst r.
    cbn [ret fst snd app].
    specialize (IH (b || f0)).
    destruct (forEach_io _ us (b || f0)) as [out' r']. simpl in IH. subst r'.
    cbn [snd]. f_equal. now destruct b, (existsb (fun b => b) bs), f0.
Qed.

(** The loop of the entry point stops at the first scan that throws. *)
Lemma main_loop_throws (run : value -> result Report) (options : Options)
    (pre post : list value) (u : value) (e : error) (f0 : bool) :
  (forall x, In x pre -> exists b, snd (scan run x options) = Ok b) ->
  snd (scan run u options) = Throw e ->
  snd (forEach_io
         (fun hasFailures url =>
            log (Scanning url) ;;~
            hasFailure <~ scan run url options ;;
            ret (hasFailure || hasFailures))
         (pre ++ u :: post) f0)
  = Throw e.
Proof.
  revert f0. induction pre as [| x pre IH]; intros f0 Hpre Hu.
  - cbn [app forEach_io]. unfold log at 1. unfold io_bind at 1.
    rewrite io_bind_emit. unfold io_bind at 1.
    destruct (scan run u options) as [out r]. simpl in Hu. subst r. reflexivity.
  - cbn [app forEach_io]. unfold log at 1. unfold io_bind at 1.
    rewrite io_bind_emit. unfold io_bind at 1.
    destruct (Hpre x (or_introl eq_refl)) as [b Hb].
    destruct (scan run x options) as [out r]. simpl in Hb. subst r.
    cbn [ret fst snd app].
    specialize (IH (b || f0) (fun y Hy => Hpre y (or_intror Hy)) Hu).
    destruct (forEach_io _ (pre ++ u :: post) (b || f0)) as [out' r'].
    simpl in IH. now subst r'.
Qed.

(** X13: the entry point scans the URLs in order.  When every scan returns,
    it returns the disjunction of their outcomes, which is "no failure" for
    an empty list of URLs; when a scan throws, the entry point throws the
    same error, whatever the scans before it returned and whatever URLs
    come after it. *)
Theorem main_aggregates (run : value -> result Report)
    (readConfig : value -> result Options) (argv : Argv)
    (options : Options) (us : list value) :
  prepareOptions readConfig argv = Ok options ->
  urls options = Some us ->
  (us = [] -> main run readConfig argv = ([], Ok false))
  /\ (forall bs,
        Forall2 (fun u b => snd (scan run u options) = Ok b) us bs ->
        snd (main run readConfig argv) = Ok (existsb (fun b => b) bs))
  /\ (forall pre u post e,
        us = (pre ++ u :: post)%list ->
        (forall x, In x pre -> exists b, snd (scan run x options) = Ok b) ->
        snd (scan run u options) = Throw e ->
        snd (main run readConfig argv) = Throw e).
Proof.
  intros Hprep Hurls.
  assert (E : main run readConfig argv
              = forEach_io
                  (fun hasFailures url =>
                     log (Scanning url) ;;~
                     hasFailure <~ scan run url options ;;
                     ret (hasFailure || hasFailures))
                  us false).
  { unfold main. rewrite Hprep. change (lift (Ok options)) with (ret options).
    rewrite io_bind_ret, Hurls. reflexivity. }
  rewrite E. split; [| split].
  - intros ->. reflexivity.
  - intros bs H. rewrite (main_loop_returns run options us bs false H).
    now rewrite orb_false_r.
  - intros pre u post e -> Hpre Hu. now apply main_loop_throws.
Qed.

Lemma main_aggregates_witness :
  main (always example_report) zero_urls config_flag = ([], Ok false)
  /\ snd (main (fails_on_b example_report) two_urls config_flag)
     = Throw (External "ECONNREFUSED").
Proof.
  split.
  - destruct (main_aggregates (always example_report) zero_urls config_flag
                {| urls := Some []; onlyAudits := Some [];
                   scores := Some [("perf", of_Z 90)]; showAudits := None;
                   extendedInfo := Some false; allAudits := Some false |}
                [] eq_refl eq_refl) as (H & _).
    exact (H eq_refl).
  - destruct (main_aggregates (fails_on_b example_report) two_urls config_flag
                {| urls := Some [VString "https://a.example";
                                 VString "https://b.example"];
                   onlyAudits := Some []; scores := None; showAudits := None;
                   extendedInfo := Some false; allAudits := Some false |}
                [VString "https://a.example"; VString "https://b.example"]
                eq_refl eq_refl) as (_ & _ & H).
    apply (H [VString "https://a.example"] (VString "https://b.example") []).
    + reflexivity.
    + intros x [<- | []]. eexists. vm_compute. reflexivity.
    + reflexivity.
Defined.

Lemma getConfig_flags_urls (readConfig : value -> result Options)
    (argv : Argv) (opts : Options) :
  truthy (argv_config argv) = false ->
  getConfig readConfig argv = Ok opts ->
  urls opts = Some [argv_url argv].
Proof.
  intros Hc. unfold getConfig. rewrite Hc.
  destruct (truthy (argv_audits argv));
    [destruct (argv_audits argv); try (cbn [bind]; discriminate) |];
    cbn [bind];
    (destruct (truthy (argv_scores argv));
     [ destruct (argv_scores argv); try (cbn [bind]; discriminate);
       match goal with
       | |- context [forEach_with add_score ?l ?m] =>
           destruct (forEach_with add_score l m); [| cbn [bind]; discriminate]
       end
     | ]);
    cbn [bind]; intros [= <-];
    destruct (truthy (argv_showaudits argv)); reflexivity.
Qed.

(** X14: without [--config] the entry point scans exactly one URL, the
    value of [--url], and this also when [--url] was not given: the runner
    is then called with [undefined].  Its outcome is that of this one scan,
    after the progress line. *)
Theorem main_scans_one_url (run : value -> result Report)
    (readConfig : value -> result Options) (argv : Argv) (options : Options) :
  truthy (argv_config argv) = false ->
  prepareOptions readConfig argv = Ok options ->
  urls options = Some [argv_url argv]
  /\ main run readConfig argv
     = (Log (Scanning (argv_url argv)) :: fst (scan run (argv_url argv) options),
        snd (scan run (argv_url argv) options)).
Proof.
  intros Hc Hprep.
  assert (Hurls : urls options = Some [argv_url argv]).
  { destruct (getConfig readConfig argv) as [opts | e] eqn:Hget.
    - rewrite (prepareOptions_of_getConfig _ _ _ Hget) in Hprep.
      injection Hprep as <-. cbn [urls].
      now rewrite (getConfig_flags_urls _ _ _ Hc Hget).
    - unfold prepareOptions in Hprep. rewrite Hget in Hprep. discriminate Hprep. }
  split; [exact Hurls |].
  unfold main. rewrite Hprep. change (lift (Ok options)) with (ret options).
  rewrite io_bind_ret, Hurls. cbn [forEach_io].
  unfold log at 1. unfold io_bind at 1. rewrite io_bind_emit.
  unfold io_bind at 1.
  destruct (scan run (argv_url argv) options) as [out [b | e]]; cbn.
  - now rewrite !app_nil_r, orb_false_r.
  - reflexivity.
Qed.

Lemma main_scans_one_url_witness :
  exists options,
    prepareOptions no_config_file no_url = Ok options
    /\ main (always (perf_only "0.95")) no_config_file no_url
       = (Log (Scanning VUndefined)
            :: fst (scan (always (perf_only "0.95")) VUndefined options),
          snd (scan (always (perf_only "0.95")) VUndefined options)).
Proof.
  eexists. split; [vm_compute; reflexivity |].
  apply (main_scans_one_url (always (perf_only "0.95")) no_config_file no_url).
  - reflexivity.
  - reflexivity.
Defined.

(** ** Options builder: the keys of the scores mapping *)

Lemma define_own_keys {V} (k : string) (v : V) (o : obj V) (x : string) :
  In x (map fst (define_own k v o)) <-> x = k \/ In x (map fst o).
Proof.
  induction o as [| [k' v'] o IH]; simpl.
  - intuition congruence.
  - destruct (String.eqb_spec k k') as [-> | Hne]; simpl.
    + intuition congruence.
    + rewrite IH. intuition congruence.
Qed.

Lemma define_own_NoDup {V} (k : string) (v : V) (o : obj V) :
  NoDup (map fst o) -> NoDup (map fst (define_own k v o)).
Proof.
  induction o as [| [k' v'] o IH]; intros H; simpl.
  - constructor; [intros [] | constructor].
  - inversion H as [| ? ? Hnotin Hrest]; subst.
    destruct (String.eqb_spec k k') as [-> | Hne]; simpl.
    + now constructor.
    + constructor; [| now apply IH].
      rewrite define_own_keys. intros [E | Hin]; [congruence | contradiction].
Qed.

Lemma insert_index_keys (k : string) (i : Z) (l : list (string * Z)) (x : string) :
  In x (map fst (insert_index k i l)) <-> x = k \/ In x (map fst l).
Proof.
  induction l as [| [k' i'] l IH]; simpl.
  - intuition congruence.
  - destruct (i <=? i'); simpl; [| rewrite IH]; intuition congruence.
Qed.

Lemma insert_index_NoDup (k : string) (i : Z) (l : list (string * Z)) :
  ~ In k (map fst l) -> NoDup (map fst l) ->
  NoDup (map fst (insert_index k i l)).
Proof.
  induction l as [| [k' i'] l IH]; intros Hk H; simpl.
  - constructor; [intros [] | constructor].
  - destruct (i <=? i'); simpl.
    + now constructor.
    + inversion H as [| ? ? Hnotin Hrest]; subst. simpl in Hk.
      constructor.
      * rewrite insert_index_keys. intros [E | Hin]; [| contradiction].
        apply Hk. left. now symmetry.
      * apply IH; [| exact Hrest]. intros Hin. apply Hk. now right.
Qed.

Lemma index_keys_sub (ks : list string) (k : string) :
  In k (map fst (index_keys ks)) -> In k ks /\ is_index k = true.
Proof.
  intros H. apply in_map_iff in H. destruct H as ([k' i] & E & H).
  simpl in E. subst k'. apply index_keys_In in H. destruct H as [H1 H2].
  split; [exact H1 |]. unfold is_index. now rewrite H2.
Qed.

Lemma index_keys_NoDup (ks : list string) :
  NoDup ks -> NoDup (map fst (index_keys ks)).
Proof.
  induction ks as [| k ks IH]; intros H; simpl; [constructor |].
  inversion H as [| ? ? Hnotin Hrest]; subst.
  destruct (array_index k) as [i |]; [| now apply IH].
  apply insert_index_NoDup; [| now apply IH].
  intros Hin. apply index_keys_sub in Hin. now destruct Hin.
Qed.

(** [Object.keys] lists no key twice. *)
Lemma Object_keys_NoDup {V} (o : obj V) :
  NoDup (map fst o) -> NoDup (Object_keys o).
Proof.
  intros H. unfold Object_keys. apply NoDup_app.
  - now apply index_keys_NoDup.
  - now apply NoDup_filter.
  - intros k Hin Hin'. apply index_keys_sub in Hin. destruct Hin as [_ Hi].
    apply filter_In in Hin'. destruct Hin' as [_ Hn]. rewrite Hi in Hn.
    discriminate Hn.
Qed.

(** What the loop over the score tokens keeps true of the mapping. *)
Lemma add_score_loop_keys (tokens : list string) (m m' : obj number)
    (from : string -> Prop) :
  (forall k, In k (map fst m) -> from k) ->
  (forall t k text, In t tokens -> match_pair t = Some (k, text) -> from k) ->
  NoDup (map fst m) ->
  ~ In "__proto__" (map fst m) ->
  forEach_with add_score tokens m = Ok m' ->
  NoDup (map fst m')
  /\ ~ In "__proto__" (map fst m')
  /\ forall k, In k (map fst m') -> from k.
Proof.
  revert m. induction tokens as [| t tokens IH]; intros m Hm Htok Hnd Hproto H.
  - simpl in H. injection H as <-. auto.
  - cbn [forEach_with] in H. unfold add_score at 1 in H.
    destruct (match_pair t) as [[k text] |] eqn:Et; [| discriminate H].
    cbn [bind] in H. apply (IH _) in H; [exact H | | | |].
    + intros k' Hk'. unfold set in Hk'.
      destruct (String.eqb k "__proto__"); [now apply Hm |].
      apply define_own_keys in Hk'. destruct Hk' as [-> | Hk']; [| now apply Hm].
      apply (Htok t k text); [now left | exact Et].
    + intros t' k' text' Ht'. apply Htok. now right.
    + unfold set. destruct (String.eqb k "__proto__"); [exact Hnd |].
      now apply define_own_NoDup.
    + unfold set. destruct (String.eqb_spec k "__proto__") as [E | Hne];
        [exact Hproto |].
      rewrite define_own_keys. intros [E | Hin]; [congruence | contradiction].
Qed.

(** X15: the scores mapping built from [--scores] has every key once in
    [Object.keys], however often the tokens name it; each key is group 1 of
    some token, and [__proto__] is never among the keys. *)
Theorem parsed_scores_keys (readConfig : value -> result Options)
    (argv : Argv) (s : string) (opts : Options) (minimums : obj number) :
  truthy (argv_config argv) = false ->
  argv_scores argv = VString s ->
  getConfig readConfig argv = Ok opts ->
  scores opts = Some minimums ->
  NoDup (Object_keys minimums)
  /\ ~ In "__proto__" (Object_keys minimums)
  /\ forall k, In k (Object_keys minimums) ->
               exists token text,
                 In token (split "," s) /\ match_pair token = Some (k, text).
Proof.
  intros Hc Hs Hget Hsc.
  assert (Hloop : forEach_with add_score (split "," s) [] = Ok minimums).
  { unfold getConfig in Hget. rewrite Hc, Hs in Hget.
    destruct (truthy (VString s)).
    - destruct (truthy (argv_audits argv));
        [destruct (argv_audits argv); try (cbn [bind] in Hget; discriminate Hget) |];
        cbn [bind] in Hget;
        (destruct (forEach_with add_score (split "," s) []) as [parsed | e];
         [| cbn [bind] in Hget; discriminate Hget]);
        cbn [bind] in Hget; injection Hget as <-;
        destruct (truthy (argv_showaudits argv)); cbn in Hsc;
        now injection Hsc as <-.
    - destruct (truthy (argv_audits argv));
        [destruct (argv_audits argv); try (cbn [bind] in Hget; discriminate Hget) |];
        cbn [bind] in Hget; injection Hget as <-;
        destruct (truthy (argv_showaudits argv)); cbn in Hsc; discriminate Hsc. }
  destruct (add_score_loop_keys (split "," s) [] minimums
              (fun k => exists token text,
                          In token (split "," s)
                          /\ match_pair token = Some (k, text)))
    as (Hnd & Hproto & Hfrom).
  - intros k [].
  - intros t k text Ht Et. now exists t, text.
  - constructor.
  - intros [].
  - exact Hloop.
  - split; [now apply Object_keys_NoDup | split].
    + now rewrite Object_keys_In.
    + intros k Hk. apply Hfrom. now apply Object_keys_In.
Qed.

Lemma parsed_scores_keys_witness :
  exists minimums,
    scores_of_flag "perf:90,__proto__:1,seo:50,perf:80" = Some minimums
    /\ NoDup (Object_keys minimums)
    /\ ~ In "__proto__" (Object_keys minimums).
Proof.
  exists [("perf", of_Z 80); ("seo", of_Z 50)]. split; [reflexivity |].
  destruct (parsed_scores_keys no_config_file
              (scores_flag "perf:90,__proto__:1,seo:50,perf:80")
              "perf:90,__proto__:1,seo:50,perf:80"
              {| urls := Some [VString "https://example.com"];
                 onlyAudits := None;
                 scores := Some [("perf", of_Z 80); ("seo", of_Z 50)];
                 showAudits := None; extendedInfo := None; allAudits := None |}
              [("perf", of_Z 80); ("seo", of_Z 50)]
              eq_refl eq_refl eq_refl eq_refl) as (H1 & H2 & _).
  now split.
Defined.

(** ** Options builder: the multiplication by 1 *)

Lemma of_Z_1 : of_Z 1 = S754_finite false 4503599627370496 (-52).
Proof. reflexivity. Qed.

(** X16: the product [categoryMinScore * 1] only converts: multiplying a
    well-formed binary64 number (NaN, the infinities and the zeros
    included) by 1 gives it back, sign and all, so that the minimum stored
    for a token is the number its text converts to. *)
Theorem times_one_keeps_the_number (minimums : obj number)
    (token key text : string) (x : number) :
  valid_binary prec emax x = true ->
  mul x (of_Z 1) = x
  /\ (match_pair token = Some (key, text) ->
      StringToNumber text = x ->
      add_score minimums token = Ok (set key x minimums)).
Proof.
  intros Hv.
  assert (Hmul : mul x (of_Z 1) = x).
  { rewrite of_Z_1. unfold mul.
    destruct x as [s | s | | s m e]; cbn [SFmul]; rewrite ?xorb_false_r;
      try reflexivity.
    unfold valid_binary, bounded, canonical_mantissa, fexp, SpecFloat.emin,
      prec, emax in Hv.
    apply andb_true_iff in Hv. destruct Hv as [Hc He].
    apply Z.eqb_eq in Hc. apply Z.leb_le in He.
    rewrite Pos.mul_comm. cbn [Pos.mul].
    unfold binary_round_aux, shr_fexp, fexp, SpecFloat.emin, prec, emax.
    cbn [Zdigits2 digits2_pos shr_record_of_loc].
    rewrite !Pos2Z.inj_succ.
    replace (Z.max _ _ - (e + -52)) with 52
      by (remember (Z.pos (digits2_pos m)) as d; lia).
    cbn [shr]. cbn [iter_pos]. cbn [shr_1 orb].
    cbn [shr_m shr_r shr_s loc_of_shr_record round_nearest_even Zdigits2].
    replace (Z.max _ _ - (e + -52 + 52)) with 0
      by (remember (Z.pos (digits2_pos m)) as d; lia).
    cbn [shr shr_m shr_record_of_loc].
    replace (e + -52 + 52) with e by lia.
    replace (e <=? 1024 - 53) with true by (symmetry; apply Z.leb_le; lia).
    reflexivity. }
  split; [exact Hmul |].
  intros Ht Hx. unfold add_score. now rewrite Ht, Hx, Hmul.
Qed.

Lemma times_one_keeps_the_number_witness :
  add_score [] "perf:90" = Ok [("perf", of_Z 90)]
  /\ add_score [] "perf:abc" = Ok [("perf", NaN)]
  /\ add_score [] "perf:-0" = Ok [("perf", S754_zero true)].
Proof.
  split; [| split].
  - destruct (times_one_keeps_the_number [] "perf:90" "perf" "90" (of_Z 90) eq_refl)
      as [_ H].
    exact (H eq_refl eq_refl).
  - destruct (times_one_keeps_the_number [] "perf:abc" "perf" "abc" NaN eq_refl)
      as [_ H].
    exact (H eq_refl eq_refl).
  - destruct (times_one_keeps_the_number [] "perf:-0" "perf" "-0"
                (S754_zero true) eq_refl) as [_ H].
    exact (H eq_refl eq_refl).
Defined.
